(** * Verification of the subscription manager

    A shallow embedding of [src/subscription-manager.ts] and of the
    interfaces it depends on ([ISubscription], [IStorage],
    [ISubscriptionManagerConfig]), together with the in-memory storage
    double of the test-suite and the parts of the JavaScript runtime
    the manager relies on: the insertion-ordered [Set] with its live
    [forEach], and [Date.prototype.toISOString].

    Modelling choices.
    - A promise is an [Outcome]: resolved with a value, or rejected
      with an error.  Each manager operation is one atomic unit of
      work; interleavings of several pending operations are not
      modelled.
    - Function values are references ([Fn]); what a callback does when
      it is invoked is given by the environment [code].  A callback
      acts on the manager only through the synchronous public surface:
      [subscribe], and the unsubscribe closure [subscribe] returns.
      It may also throw.  It does not write to the storage medium and
      does not move the clock.
    - A notification pass need not terminate (a callback may register
      a new listener each time it is called), so [forEach] takes
      fuel; the results do not depend on the fuel once it suffices. *)

From Stdlib Require Import ZArith Lia String Ascii List.
From stdpp Require Import base option list gmap strings.

Local Open Scope string_scope.
Local Open Scope list_scope.
Local Open Scope Z_scope.

(** ** Data contracts *)

(** [interface ISubscription { active: boolean; updatedAt: string }],
    extended by the tenant with further fields, which the manager
    never looks at: [T extends ISubscription] is [ISubscription Ext]. *)
Record ISubscription (Ext : Type) : Type := mkSubscription {
  active : bool;
  updatedAt : string;
  ext : Ext
}.
Arguments mkSubscription {Ext} _ _ _.
Arguments active {Ext} _.
Arguments updatedAt {Ext} _.
Arguments ext {Ext} _.

(** The value of a settled promise whose executor has access to a
    backend of type [B]: [inl e] is a rejection with [e]. *)
Definition Settled (Err B A : Type) : Type := ((Err + A) * B)%type.

(** [interface IStorage<T>]: [get], [set] and [remove], each of which
    may fail and may change the state of the backend. *)
Record IStorage (T Err B : Type) : Type := mkStorage {
  get : string -> B -> Settled Err B (option T);
  set : string -> T -> B -> Settled Err B unit;
  remove : string -> B -> Settled Err B unit
}.
Arguments mkStorage {T Err B} _ _ _.
Arguments get {T Err B} _ _ _.
Arguments set {T Err B} _ _ _ _.
Arguments remove {T Err B} _ _ _.

(** A function value is known by its reference. *)
Abbreviation Fn := nat.

(** [interface ISubscriptionManagerConfig<T>]. *)
Record ISubscriptionManagerConfig (T Err B : Type) : Type := mkConfig {
  storage : IStorage T Err B;
  storageKey : string;
  onChange : option Fn
}.
Arguments mkConfig {T Err B} _ _ _.
Arguments storage {T Err B} _.
Arguments storageKey {T Err B} _.
Arguments onChange {T Err B} _.

(** ** The JavaScript [Date]

    [new Date().toISOString()] renders the time value of the clock
    (milliseconds since the epoch, UTC) as [YYYY-MM-DDTHH:mm:ss.sssZ];
    years outside [0..9999] are written with a sign and six digits. *)

Definition msPerDay : Z := 86400000.
Definition Day (t : Z) : Z := t / msPerDay.
Definition HourFromTime (t : Z) : Z := (t / 3600000) mod 24.
Definition MinFromTime (t : Z) : Z := (t / 60000) mod 60.
Definition SecFromTime (t : Z) : Z := (t / 1000) mod 60.
Definition msFromTime (t : Z) : Z := t mod 1000.

(** The time values a [Date] can hold. *)
Definition time_value (t : Z) : Prop :=
  -8640000000000000 <= t <= 8640000000000000.

Definition InLeapYear (y : Z) : bool :=
  ((y mod 4 =? 0) && negb (y mod 100 =? 0)) || (y mod 400 =? 0).

Definition DaysInMonth (y m : Z) : Z :=
  match m with
  | 2 => if InLeapYear y then 29 else 28
  | 4 | 6 | 9 | 11 => 30
  | _ => 31
  end.

(** Year, month (from 1) and day of the month of a day number, in the
    proleptic Gregorian calendar; the year is counted from March
    within a 400-year era. *)
Definition civil (day : Z) : Z * Z * Z :=
  let z := day + 719468 in
  let era := z / 146097 in
  let doe := z mod 146097 in
  let yoe := (doe - doe / 1460 + doe / 36524 - doe / 146096) / 365 in
  let doy := doe - (365 * yoe + yoe / 4 - yoe / 100) in
  let mp := (5 * doy + 2) / 153 in
  let d := doy - (153 * mp + 2) / 5 + 1 in
  let m := if mp <? 10 then mp + 3 else mp - 9 in
  let y := yoe + era * 400 + (if m <=? 2 then 1 else 0) in
  (y, m, d).

Definition digit (n : Z) : ascii :=
  match n with
  | 0 => "0" | 1 => "1" | 2 => "2" | 3 => "3" | 4 => "4"
  | 5 => "5" | 6 => "6" | 7 => "7" | 8 => "8" | _ => "9"
  end%char.

Definition pad2 (n : Z) : list ascii :=
  [digit (n / 10 mod 10); digit (n mod 10)].
Definition pad3 (n : Z) : list ascii :=
  digit (n / 100 mod 10) :: pad2 n.
Definition pad4 (n : Z) : list ascii :=
  digit (n / 1000 mod 10) :: pad3 n.
Definition pad6 (n : Z) : list ascii :=
  digit (n / 100000 mod 10) :: digit (n / 10000 mod 10) :: pad4 n.

Definition year_chars (y : Z) : list ascii :=
  if (0 <=? y) && (y <=? 9999) then pad4 y
  else (if y <? 0 then "-"%char else "+"%char) :: pad6 (Z.abs y).

Definition toISOString (t : Z) : string :=
  let '(y, m, d) := civil (Day t) in
  string_of_list_ascii
    (year_chars y ++ ["-"%char] ++ pad2 m ++ ["-"%char] ++ pad2 d ++
     ["T"%char] ++ pad2 (HourFromTime t) ++ [":"%char] ++
     pad2 (MinFromTime t) ++ [":"%char] ++ pad2 (SecFromTime t) ++
     ["."%char] ++ pad3 (msFromTime t) ++ ["Z"%char]).

(** Recognising a timestamp: the format above, with a month in
    [1..12], a day that exists in that month, and a time of day. *)
Definition digit_val (c : ascii) : option Z :=
  let n := Z.of_N (N_of_ascii c) in
  if (48 <=? n) && (n <=? 57) then Some (n - 48) else None.

Definition number (cs : list ascii) : option Z :=
  foldl (λ acc c, a ← acc; v ← digit_val c; Some (10 * a + v)) (Some 0) cs.

Definition char_is (c : ascii) (s : string) : bool :=
  bool_decide (String c "" = s).

Definition time_ok (y : Z) (cs : list ascii) : bool :=
  match cs with
  | [c1; m1; m2; c2; d1; d2; c3; h1; h2; c4; n1; n2; c5; s1; s2; c6;
     f1; f2; f3; c7] =>
    char_is c1 "-" && char_is c2 "-" && char_is c3 "T" &&
    char_is c4 ":" && char_is c5 ":" && char_is c6 "." &&
    char_is c7 "Z" &&
    match number [m1; m2], number [d1; d2], number [h1; h2],
          number [n1; n2], number [s1; s2], number [f1; f2; f3] with
    | Some mo, Some d, Some h, Some mi, Some s, Some _ =>
      (1 <=? mo) && (mo <=? 12) && (1 <=? d) && (d <=? DaysInMonth y mo) &&
      (h <=? 23) && (mi <=? 59) && (s <=? 59)
    | _, _, _, _, _, _ => false
    end
  | _ => false
  end.

Definition isISOString (s : string) : bool :=
  let cs := list_ascii_of_string s in
  if (length cs =? 24)%nat then
    match number (take 4 cs) with
    | Some y => time_ok y (drop 4 cs)
    | None => false
    end
  else
    match cs with
    | sg :: cs' =>
      (length cs' =? 26)%nat &&
      match number (take 6 cs') with
      | Some y =>
        (char_is sg "+" && time_ok y (drop 6 cs')) ||
        (char_is sg "-" && negb (y =? 0) && time_ok (- y) (drop 6 cs'))
      | None => false
      end
    | [] => false
    end.

(** [a || b] on strings: the empty string is the only falsy one. *)
Definition or_else (a b : string) : string :=
  match a with
  | EmptyString => b
  | _ => a
  end.

(** ** The JavaScript [Set]

    ECMAScript keeps the elements of a [Set] in the list [[SetData]],
    in insertion order.  [delete] does not shorten the list: it
    replaces the element by the marker [empty] ([None] here), and
    [add] appends.  [forEach] walks the list by index and re-reads its
    length after every call of the callback. *)
Abbreviation SetData := (list (option Fn)).

Definition set_has (value : Fn) (entries : SetData) : bool :=
  bool_decide (Some value ∈ entries).

Definition set_add (value : Fn) (entries : SetData) : SetData :=
  if set_has value entries then entries else entries ++ [Some value].

Definition set_delete (value : Fn) (entries : SetData) : SetData :=
  (λ e, if decide (e = Some value) then None else e) <$> entries.

(** The elements of the set, in insertion order. *)
Definition set_values (entries : SetData) : list Fn := omap id entries.

(** How the list of a set may change while the set lives: a slot keeps
    its entry or is emptied for good, and new slots are appended. *)
Definition evolves (es es' : SetData) : Prop :=
  ∀ j x, es !! j = Some x → es' !! j = Some x ∨ es' !! j = Some None.

(** ** The world the manager runs in *)

Section Manager.

Context {Ext Err B : Type}.

Abbreviation T := (ISubscription Ext).

(** One invocation of a callback: which function, with which
    argument. *)
Definition Call : Type := (Fn * option T)%type.

(** [backend]: state of the storage medium; [listeners]: the private
    field of the manager; [calls]: every callback invocation so far,
    oldest first; [clock]: the time value [new Date()] reads. *)
Record World : Type := mkWorld {
  backend : B;
  listeners : SetData;
  calls : list Call;
  clock : Z
}.

Definition with_backend (b : B) (w : World) : World :=
  mkWorld b (listeners w) (calls w) (clock w).
Definition with_listeners (es : SetData) (w : World) : World :=
  mkWorld (backend w) es (calls w) (clock w).
Definition with_calls (cs : list Call) (w : World) : World :=
  mkWorld (backend w) (listeners w) cs (clock w).

(** The result of running a piece of code: it returned (the promise
    resolved), it threw (the promise rejected), or it was still
    running when the fuel ran out. *)
Inductive Outcome (A : Type) : Type :=
| Resolved (a : A) (w : World)
| Rejected (e : Err) (w : World)
| OutOfFuel.
Arguments Resolved {A} _ _.
Arguments Rejected {A} _ _.
Arguments OutOfFuel {A}.

Definition M (A : Type) : Type := World -> Outcome A.

(** The world a computation that finished leaves behind. *)
Definition final {A} (o : Outcome A) : option World :=
  match o with
  | Resolved _ w | Rejected _ w => Some w
  | OutOfFuel => None
  end.

Definition ret {A} (a : A) : M A := λ w, Resolved a w.

Definition bind {A A'} (m : M A) (k : A -> M A') : M A' :=
  λ w, match m w with
       | Resolved a w' => k a w'
       | Rejected e w' => Rejected e w'
       | OutOfFuel => OutOfFuel
       end.

Notation "'await' x := m 'in' k" := (bind m (λ x, k))
  (at level 10, x name, m at level 100, k at level 200).
Notation "m ;; k" := (bind m (λ _, k))
  (at level 100, k at level 200, right associativity).

(** A call through the Storage Port. *)
Definition port {A} (op : B -> Settled Err B A) : M A :=
  λ w, match op (backend w) with
       | (inr a, b) => Resolved a (with_backend b w)
       | (inl e, b) => Rejected e (with_backend b w)
       end.

(** ** Callbacks

    What the body of a callback may do to the manager while it runs:
    register a listener ([manager.subscribe(f)]), call the unsubscribe
    closure obtained for a listener, or throw. *)
Inductive Cmd : Type :=
| CSubscribe (f : Fn)
| CUnsubscribe (f : Fn)
| CThrow (e : Err).

(** The function objects of the environment: the body a function runs
    when it is called with a given argument, after a given history of
    callback invocations. *)
Variable code : Fn -> option T -> list Call -> list Cmd.

(** ** class SubscriptionManager *)

Variable config : ISubscriptionManagerConfig T Err B.

(** [getSubscription()] *)
Definition getSubscription : M (option T) :=
  port (get (storage config) (storageKey config)).

(** [isActive()]: [sub?.active ?? false] *)
Definition isActive : M bool :=
  await sub := getSubscription in
  ret (match sub with
       | Some s => active s
       | None => false
       end).

(** [subscribe(listener)] adds to the set; the closure it returns is
    [unsubscribe listener]. *)
Definition subscribe (listener : Fn) (w : World) : World :=
  with_listeners (set_add listener (listeners w)) w.

Definition unsubscribe (listener : Fn) (w : World) : World :=
  with_listeners (set_delete listener (listeners w)) w.

(** Running the body of a callback. *)
Fixpoint run (body : list Cmd) : M unit :=
  match body with
  | [] => ret tt
  | CSubscribe f :: body' => λ w, run body' (subscribe f w)
  | CUnsubscribe f :: body' => λ w, run body' (unsubscribe f w)
  | CThrow e :: _ => λ w, Rejected e w
  end.

(** Calling the function [f] with argument [subscription]. *)
Definition call (f : Fn) (subscription : option T) : M unit :=
  λ w, run (code f subscription (calls w))
           (with_calls (calls w ++ [(f, subscription)]) w).

(** [Set.prototype.forEach], from position [index] on: the entry is
    read from the live list at every step. *)
Fixpoint forEach (fuel : nat) (callbackfn : Fn -> M unit) (index : nat)
  : M unit :=
  λ w, match fuel with
       | O => OutOfFuel
       | S fuel' =>
         match listeners w !! index with
         | None => Resolved tt w
         | Some None => forEach fuel' callbackfn (S index) w
         | Some (Some fn) =>
           (callbackfn fn ;; forEach fuel' callbackfn (S index)) w
         end
       end.

(** [notify(subscription)]:
    [this.config.onChange?.(subscription);
     this.listeners.forEach((fn) => fn(subscription));] *)
Definition notify (fuel : nat) (subscription : option T) : M unit :=
  match onChange config with
  | Some f => call f subscription
  | None => ret tt
  end ;;
  forEach fuel (λ fn, call fn subscription) 0.

(** The record [setSubscription] builds:
    [{ ...subscription,
       updatedAt: subscription.updatedAt || new Date().toISOString() }] *)
Definition toStore (now : Z) (subscription : T) : T :=
  mkSubscription (active subscription)
    (or_else (updatedAt subscription) (toISOString now))
    (ext subscription).

(** [setSubscription(subscription)], when nothing else is scheduled
    while the storage call is awaited ([setSubscriptionAwait] below
    is the call with what may run in between). *)
Definition setSubscription (fuel : nat) (subscription : T) : M unit :=
  λ w, let toStore := toStore (clock w) subscription in
       (port (set (storage config) (storageKey config) toStore) ;;
        notify fuel (Some toStore)) w.

(** [clearSubscription()], when nothing else is scheduled while the
    storage call is awaited ([clearSubscriptionAwait] below is the
    call with what may run in between). *)
Definition clearSubscription (fuel : nat) : M unit :=
  port (remove (storage config) (storageKey config)) ;;
  notify fuel None.

(** ** Vocabulary for the statements *)

(** A mutation is a call of [setSubscription] or of
    [clearSubscription]. *)
Inductive Mutation : Type :=
| SetSubscription (subscription : T)
| ClearSubscription.

Definition mutate (fuel : nat) (m : Mutation) : M unit :=
  match m with
  | SetSubscription subscription => setSubscription fuel subscription
  | ClearSubscription => clearSubscription fuel
  end.

(** The storage call the mutation makes in [w], and the value it
    then passes to [notify]. *)
Definition persist (m : Mutation) (w : World) : Settled Err B unit :=
  match m with
  | SetSubscription subscription =>
    set (storage config) (storageKey config)
      (toStore (clock w) subscription) (backend w)
  | ClearSubscription =>
    remove (storage config) (storageKey config) (backend w)
  end.

Definition announced (m : Mutation) (w : World) : option T :=
  match m with
  | SetSubscription subscription => Some (toStore (clock w) subscription)
  | ClearSubscription => None
  end.

(** The callback invocations made between [w] and a later [w']. *)
Definition since (w w' : World) : list Call :=
  drop (length (calls w)) (calls w').

(** The functions invoked by a list of calls, and how many times a
    given function was. *)
Definition callees (cs : list Call) : list Fn := fst <$> cs.
Definition times (l : Fn) (cs : list Call) : nat :=
  length (filter (λ f, f = l) (callees cs)).

(** No callback ever (re-)registers, respectively unregisters, [l]. *)
Definition never_subscribed (l : Fn) : Prop :=
  ∀ f v h, CSubscribe l ∉ code f v h.
Definition never_unsubscribed (l : Fn) : Prop :=
  ∀ f v h, CUnsubscribe l ∉ code f v h.

(** The callbacks in [fs] do nothing to the manager and return. *)
Definition quiet (fs : list Fn) : Prop :=
  ∀ f, f ∈ fs → ∀ v h, code f v h = [].

(** The functions a notification pass starting in [w] may call when no
    callback touches the registry: the change callback, then the
    listeners in insertion order. *)
Definition observers (w : World) : list Fn :=
  option_list (onChange config) ++ set_values (listeners w).

(** The registry is a set: no listener holds two slots. *)
Definition registry_ok (w : World) : Prop := NoDup (set_values (listeners w)).

(** What the observers have seen of a mutation that led from [w] to
    [w'] with the new value [v]: every call carried [v]; the change
    callback came first, and was called once unless it is, or is made,
    a listener as well; a listener registered at the start that no
    callback unregisters was called once. *)
Definition notified (v : option T) (w w' : World) : Prop :=
  Forall (λ c, c.2 = v) (since w w') ∧
  (∀ f, onChange config = Some f →
        head (since w w') = Some (f, v) ∧
        (Some f ∉ listeners w → never_subscribed f →
         times f (since w w') = 1%nat)) ∧
  (∀ l, Some l ∈ listeners w → never_unsubscribed l →
        onChange config ≠ Some l → times l (since w w') = 1%nat).

End Manager.

Arguments SetSubscription {Ext} _.
Arguments ClearSubscription {Ext}.
Arguments Resolved {Ext Err B A} _ _.
Arguments Rejected {Ext Err B A} _ _.
Arguments OutOfFuel {Ext Err B A}.

(** ** The storage of the test-suite

    [createMockStorage]: a [Map] from keys to records; no call fails. *)
Definition createMockStorage {T Err : Type} : IStorage T Err (gmap string T) :=
  mkStorage
    (λ key store, (inr (store !! key), store))
    (λ key value store, (inr tt, <[key := value]> store))
    (λ key store, (inr tt, delete key store)).

(** A storage medium that is unavailable: every call rejects with
    [e] and leaves the backend as it is. *)
Definition unavailableStorage {T Err B : Type} (e : Err) : IStorage T Err B :=
  mkStorage
    (λ _ b, (inl e, b))
    (λ _ _ b, (inl e, b))
    (λ _ b, (inl e, b)).

(** What it means for a storage to give back what was written. *)
Definition reads_back {T Err B : Type} (st : IStorage T Err B) : Prop :=
  ∀ key value b b',
    set st key value b = (inr tt, b') → get st key b' = (inr (Some value), b').

(** [interface TestSubscription extends ISubscription
      { plan: 'free' | 'pro' }] *)
Inductive Plan : Type := free | pro.
Abbreviation TestSubscription := (ISubscription Plan).

Definition STORAGE_KEY : string := "test:sub".

(** The manager of the test-suite, with or without a change callback. *)
Definition testConfig (onChange : option Fn)
  : ISubscriptionManagerConfig TestSubscription string
      (gmap string TestSubscription) :=
  mkConfig createMockStorage STORAGE_KEY onChange.

(** The same manager over a medium that is out of quota. *)
Definition quotaConfig (onChange : option Fn)
  : ISubscriptionManagerConfig TestSubscription string
      (gmap string TestSubscription) :=
  mkConfig (unavailableStorage "quota") STORAGE_KEY onChange.

(** A newly constructed manager on an empty store: [new Set()], no
    call made yet. *)
Definition fresh (now : Z) : @World Plan (gmap string TestSubscription) :=
  mkWorld ∅ [] [] now.

(** The same manager once [r] has been written to the store. *)
Definition stored (r : TestSubscription) (now : Z)
  : @World Plan (gmap string TestSubscription) :=
  mkWorld {[STORAGE_KEY := r]} [] [] now.

(** 2025-01-01T00:00:00.000Z *)
Definition new_year_2025 : Z := 1735689600000.

(** Environments of callbacks used in the examples. *)

(** Nobody does anything. *)
Definition idle : Fn → option TestSubscription → list (@Call Plan) →
                  list (@Cmd string) :=
  λ _ _ _, [].

(** Function 1 registers function 2 when it is called. *)
Definition registering : Fn → option TestSubscription → list (@Call Plan) →
                         list (@Cmd string) :=
  λ f _ _, match f with
           | 1%nat => [CSubscribe 2%nat]
           | _ => []
           end.

(** Function 1 unregisters function 2 and registers it again. *)
Definition reregistering : Fn → option TestSubscription → list (@Call Plan) →
                           list (@Cmd string) :=
  λ f _ _, match f with
           | 1%nat => [CUnsubscribe 2%nat; CSubscribe 2%nat]
           | _ => []
           end.

(** Function 1 unregisters function 2. *)
Definition unregistering : Fn → option TestSubscription → list (@Call Plan) →
                           list (@Cmd string) :=
  λ f _ _, match f with
           | 1%nat => [CUnsubscribe 2%nat]
           | _ => []
           end.

(** Every function registers its successor. *)
Definition runaway : Fn → option TestSubscription → list (@Call Plan) →
                     list (@Cmd string) :=
  λ f _ _, [CSubscribe (S f)].

(** Function 0 throws. *)
Definition throwing : Fn → option TestSubscription → list (@Call Plan) →
                      list (@Cmd string) :=
  λ f _ _, match f with
           | 0%nat => [CThrow "boom"]
           | _ => []
           end.

(** ** Further vocabulary *)

(** What it means for a storage to forget what was removed. *)
Definition forgets {T Err B : Type} (st : IStorage T Err B) : Prop :=
  ∀ key b b', remove st key b = (inr tt, b') → get st key b' = (inr None, b').

(** The callbacks in [fs] leave the manager alone except that they
    may unregister themselves (a listener that wants one call only). *)
Definition tame {Ext Err : Type}
    (code : Fn → option (ISubscription Ext) → list (@Call Ext) →
            list (@Cmd Err))
    (fs : list Fn) : Prop :=
  ∀ f, f ∈ fs → ∀ v h, code f v h = [] ∨ code f v h = [CUnsubscribe f].

(** ** The await

    [setSubscription] and [clearSubscription] are async functions.
    [await this.config.storage.set(..)] (or [remove]) hands control
    back to the rest of the program until the storage call has
    settled; [notify] runs only then, on the listener set as it is at
    that moment.  In between the rest of the program may have called
    [subscribe], closures returned by [subscribe], or other methods
    of the manager: [meanwhile] is what it made of the world the
    storage call left. *)
Section Await.

Context {Ext Err B : Type}.
Variable code : Fn → option (ISubscription Ext) → list (@Call Ext) →
                list (@Cmd Err).
Variable config : ISubscriptionManagerConfig (ISubscription Ext) Err B.
Variable meanwhile : @World Ext B → @World Ext B.

(** [const toStore = {..}; await storage.set(key, toStore);
     this.notify(toStore);]: the record is built, and the clock read,
    before the await. *)
Definition setSubscriptionAwait (fuel : nat) (subscription : ISubscription Ext)
  : @M Ext Err B unit :=
  λ w, let toStore := toStore (clock w) subscription in
       match set (storage config) (storageKey config) toStore (backend w) with
       | (inr _, b) =>
         notify code config fuel (Some toStore) (meanwhile (with_backend b w))
       | (inl e, b) => Rejected e (meanwhile (with_backend b w))
       end.

(** [await storage.remove(key); this.notify(null);] *)
Definition clearSubscriptionAwait (fuel : nat) : @M Ext Err B unit :=
  λ w, match remove (storage config) (storageKey config) (backend w) with
       | (inr _, b) =>
         notify code config fuel None (meanwhile (with_backend b w))
       | (inl e, b) => Rejected e (meanwhile (with_backend b w))
       end.

Definition mutateAwait (fuel : nat) (m : @Mutation Ext) : @M Ext Err B unit :=
  match m with
  | SetSubscription subscription => setSubscriptionAwait fuel subscription
  | ClearSubscription => clearSubscriptionAwait fuel
  end.

(** The world in which a mutation called in [w] is resumed: the one
    in which its notification pass starts when the storage call
    succeeded. *)
Definition resumed (m : @Mutation Ext) (w : @World Ext B) : @World Ext B :=
  meanwhile (with_backend (persist config m w).2 w).

End Await.

(** ** Sessions

    What a caller can do with a manager, one operation after the
    other. *)
Section Sessions.

Context {Ext Err B : Type}.
Variable code : Fn → option (ISubscription Ext) → list (@Call Ext) →
                list (@Cmd Err).
Variable config : ISubscriptionManagerConfig (ISubscription Ext) Err B.

Inductive Op : Type :=
| DoSubscribe (listener : Fn)
| DoUnsubscribe (listener : Fn)
| DoMutate (fuel : nat) (m : @Mutation Ext)
| DoGet
| DoIsActive.

(** The world after an operation that settled. *)
Definition perform (op : Op) (w : @World Ext B) : option (@World Ext B) :=
  match op with
  | DoSubscribe l => Some (subscribe l w)
  | DoUnsubscribe l => Some (unsubscribe l w)
  | DoMutate fuel m => final (mutate code config fuel m w)
  | DoGet => final (getSubscription config w)
  | DoIsActive => final (isActive config w)
  end.

Fixpoint session (ops : list Op) (w : @World Ext B) : option (@World Ext B) :=
  match ops with
  | [] => Some w
  | op :: ops' =>
    match perform op w with
    | Some w' => session ops' w'
    | None => None
    end
  end.

End Sessions.

Arguments DoSubscribe {Ext} _.
Arguments DoUnsubscribe {Ext} _.
Arguments DoMutate {Ext} _ _.
Arguments DoGet {Ext}.
Arguments DoIsActive {Ext}.

(** ** The React binding

    [SubscriptionProvider] keeps three state cells and runs one
    effect per manager.  The effect starts the hydration
    ([getSubscription().then(..).catch(..)]), registers a listener,
    and owns the variable [cancelled], which its cleanup sets.  Each
    of the three callbacks of the effect is a function of the value
    of [cancelled] when it runs and of the state cells. *)
Module React.
Section Provider.

Context {Ext Err B Error : Type}.

(** [err instanceof Error], [String(err)] and [new Error(message)]. *)
Variable instanceofError : Err → option Error.
Variable toString : Err → string.
Variable newError : string → Error.

(** [useState(null)], [useState(true)], [useState(null)]. *)
Record State : Type := mkState {
  subscription : option (ISubscription Ext);
  loading : bool;
  error : option Error
}.

Definition initial : State := mkState None true None.

(** [.then((sub) => { if (!cancelled) { setSubscriptionState(sub);
      setLoading(false); } })] *)
Definition onHydrated (cancelled : bool) (sub : option (ISubscription Ext))
    (s : State) : State :=
  if cancelled then s else mkState sub false (error s).

(** [.catch((err) => { if (!cancelled) {
      setError(err instanceof Error ? err : new Error(String(err)));
      setLoading(false); } })] *)
Definition onHydrationFailed (cancelled : bool) (err : Err) (s : State)
  : State :=
  if cancelled then s
  else mkState (subscription s) false
         (Some (match instanceofError err with
                | Some e => e
                | None => newError (toString err)
                end)).

(** [subscribe((sub) => { if (!cancelled) setSubscriptionState(sub); })] *)
Definition listener (cancelled : bool) (sub : option (ISubscription Ext))
    (s : State) : State :=
  if cancelled then s else mkState sub (loading s) (error s).

(** [isActive: subscription?.active ?? false] of the context value. *)
Definition isActive (s : State) : bool :=
  match subscription s with
  | Some sub => active sub
  | None => false
  end.

(** The hydration promise settles: [then] or [catch] runs. *)
Definition hydrate (cancelled : bool)
    (o : @Outcome Ext Err B (option (ISubscription Ext))) (s : State)
  : State :=
  match o with
  | Resolved sub _ => onHydrated cancelled sub s
  | Rejected err _ => onHydrationFailed cancelled err s
  | OutOfFuel => s
  end.

(** The manager makes the calls [cs]; those to the function [fn], the
    listener the effect registered, reach the provider. *)
Definition deliver (cancelled : bool) (fn : Fn) (cs : list (@Call Ext))
    (s : State) : State :=
  foldl (λ s c, if decide (c.1 = fn) then listener cancelled c.2 s else s)
        s cs.

(** A callback of some run of the effect is invoked. *)
Inductive Event : Type :=
| Hydrated (cancelled : bool) (sub : option (ISubscription Ext))
| HydrationFailed (cancelled : bool) (err : Err)
| Notified (cancelled : bool) (sub : option (ISubscription Ext)).

Definition handle (s : State) (ev : Event) : State :=
  match ev with
  | Hydrated c sub => onHydrated c sub s
  | HydrationFailed c err => onHydrationFailed c err s
  | Notified c sub => listener c sub s
  end.

End Provider.
End React.

(** Further examples. *)

(** A second manager on the same store, under its own key. *)
Definition otherConfig (onChange : option Fn)
  : ISubscriptionManagerConfig TestSubscription string
      (gmap string TestSubscription) :=
  mkConfig createMockStorage "other:sub" onChange.

(** Function 1 unregisters itself when it is called. *)
Definition once : Fn → option TestSubscription → list (@Call Plan) →
                  list (@Cmd string) :=
  λ f _ _, match f with
           | 1%nat => [CUnsubscribe 1%nat]
           | _ => []
           end.

(** * Facts about the runtime *)

(** ** [Date]: what [toISOString] prints is a timestamp *)

Local Ltac zlia := Z.to_euclidean_division_equations; lia.

Lemma yoe_facts doe :
  0 <= doe < 146097 ->
  let yoe := (doe - doe / 1460 + doe / 36524 - doe / 146096) / 365 in
  let doy := doe - (365 * yoe + yoe / 4 - yoe / 100) in
  0 <= yoe <= 399 /\ 0 <= doy <= 365 /\
  (doy = 365 -> (yoe + 1) mod 4 = 0 /\ ((yoe + 1) mod 100 <> 0 \/ yoe = 399)).
Proof.
  intros H yoe doy. subst doy yoe.
  assert (H3 : 0 <= doe / 36524 <= 4) by zlia.
  assert (H4 : 0 <= doe / 146096 <= 1) by zlia.
  remember (doe / 36524) as q3 eqn:E3.
  remember (doe / 146096) as q4 eqn:E4.
  assert (C3 : q3 = 0 \/ q3 = 1 \/ q3 = 2 \/ q3 = 3 \/ q3 = 4) by lia.
  assert (C4 : q4 = 0 \/ q4 = 1) by lia.
  destruct C3 as [-> | [-> | [-> | [-> | ->]]]];
    destruct C4 as [-> | ->]; zlia.
Qed.

Lemma InLeapYear_shift y k : InLeapYear (y + k * 400) = InLeapYear y.
Proof.
  unfold InLeapYear.
  replace (y + k * 400) with (y + (k * 100) * 4) at 1 by lia.
  replace (y + k * 400) with (y + (k * 4) * 100) at 1 by lia.
  now rewrite !Z_mod_plus_full.
Qed.

Lemma month_facts yoe doy :
  0 <= yoe <= 399 -> 0 <= doy <= 365 ->
  (doy = 365 -> (yoe + 1) mod 4 = 0 /\ ((yoe + 1) mod 100 <> 0 \/ yoe = 399)) ->
  let mp := (5 * doy + 2) / 153 in
  let d := doy - (153 * mp + 2) / 5 + 1 in
  let m := if mp <? 10 then mp + 3 else mp - 9 in
  let y := yoe + (if m <=? 2 then 1 else 0) in
  1 <= m <= 12 /\ 1 <= d <= DaysInMonth y m.
Proof.
  intros Hy Hd Hl mp.
  assert (Hmp : 0 <= mp <= 11) by (subst mp; zlia).
  assert (E : mp = (5 * doy + 2) / 153) by reflexivity.
  clearbody mp.
  assert (Hc : mp = 0 \/ mp = 1 \/ mp = 2 \/ mp = 3 \/ mp = 4 \/ mp = 5 \/
               mp = 6 \/ mp = 7 \/ mp = 8 \/ mp = 9 \/ mp = 10 \/ mp = 11) by lia.
  repeat (destruct Hc as [-> | Hc]); try rewrite Hc in *; cbv zeta;
    repeat match goal with
    | |- context [if ?k <? 10 then ?a else ?b] =>
      let v := eval vm_compute in (if k <? 10 then a else b) in
      change (if k <? 10 then a else b) with v
    | |- context [if ?k <=? 2 then 1 else 0] =>
      let v := eval vm_compute in (if k <=? 2 then 1 else 0) in
      change (if k <=? 2 then 1 else 0) with v
    end;
    (split; [lia|]); cbv beta iota delta [DaysInMonth].
  all: try zlia.
  unfold InLeapYear.
  destruct (Z.eq_dec doy 365) as [E1|E1].
  - destruct (Hl E1) as [-> [H100| ->]].
    + apply Z.eqb_neq in H100. rewrite H100, Z.eqb_refl.
      cbn [negb andb orb]. zlia.
    + change (orb _ _) with true. cbv iota. zlia.
  - destruct (orb _ _); zlia.
Qed.

Lemma civil_ok day :
  let '(y, m, d) := civil day in 1 <= m <= 12 /\ 1 <= d <= DaysInMonth y m.
Proof.
  unfold civil.
  set (z := day + 719468).
  set (era := z / 146097).
  set (doe := z mod 146097).
  assert (Hdoe : 0 <= doe < 146097) by (apply Z.mod_pos_bound; lia).
  clearbody doe era. clear z day.
  destruct (yoe_facts doe Hdoe) as (Hy & Hd & Hl).
  pose proof (month_facts _ _ Hy Hd Hl) as Hm. cbv zeta in Hm.
  set (yoe := (doe - doe / 1460 + doe / 36524 - doe / 146096) / 365) in *.
  set (doy := doe - (365 * yoe + yoe / 4 - yoe / 100)) in *.
  set (mp := (5 * doy + 2) / 153) in *.
  set (m := if mp <? 10 then mp + 3 else mp - 9) in *.
  destruct Hm as [Hm1 Hm2]. split; [exact Hm1|].
  unfold DaysInMonth in *.
  replace (yoe + era * 400 + (if m <=? 2 then 1 else 0))
    with (yoe + (if m <=? 2 then 1 else 0) + era * 400) by lia.
  now rewrite InLeapYear_shift.
Qed.

Lemma civil_year day :
  -101000000 <= day + 719468 <= 101000000 ->
  -999999 <= (civil day).1.1 <= 999999.
Proof.
  intros Hz. unfold civil. cbv zeta. cbn [fst snd].
  set (z := day + 719468) in *.
  pose proof (yoe_facts (z mod 146097)
                ltac:(apply Z.mod_pos_bound; lia)) as (Hyoe & _).
  cbv zeta in Hyoe.
  set (doe := z mod 146097) in *.
  set (yoe := (doe - doe / 1460 + doe / 36524 - doe / 146096) / 365) in *.
  clearbody yoe.
  assert (He : -1000 <= z / 146097 <= 1000) by zlia.
  destruct (_ <=? 2); lia.
Qed.

Lemma digit_val_digit k : digit_val (digit (k mod 10)) = Some (k mod 10).
Proof.
  assert (H : 0 <= k mod 10 < 10) by (apply Z.mod_pos_bound; lia).
  destruct (k mod 10) as [|p|p]; [reflexivity| |lia].
  do 4 (destruct p as [p|p|]; try reflexivity; try lia).
Qed.

Lemma number_pad2 n : 0 <= n < 100 -> number (pad2 n) = Some n.
Proof.
  intros H. unfold number, pad2. cbn [foldl].
  rewrite !digit_val_digit. cbn [mbind option_bind]. f_equal. zlia.
Qed.

Lemma number_pad3 n : 0 <= n < 1000 -> number (pad3 n) = Some n.
Proof.
  intros H. unfold number, pad3, pad2. cbn [foldl].
  rewrite !digit_val_digit. cbn [mbind option_bind]. f_equal. zlia.
Qed.

Lemma number_pad4 n : 0 <= n < 10000 -> number (pad4 n) = Some n.
Proof.
  intros H. unfold number, pad4, pad3, pad2. cbn [foldl].
  rewrite !digit_val_digit. cbn [mbind option_bind]. f_equal. zlia.
Qed.

Lemma number_pad6 n : 0 <= n < 1000000 -> number (pad6 n) = Some n.
Proof.
  intros H. unfold number, pad6, pad4, pad3, pad2. cbn [foldl].
  rewrite !digit_val_digit. cbn [mbind option_bind]. f_equal. zlia.
Qed.

Lemma time_ok_intro y m d t :
  1 <= m <= 12 -> 1 <= d <= DaysInMonth y m ->
  time_ok y
    (["-"%char] ++ pad2 m ++ ["-"%char] ++ pad2 d ++
     ["T"%char] ++ pad2 (HourFromTime t) ++ [":"%char] ++
     pad2 (MinFromTime t) ++ [":"%char] ++ pad2 (SecFromTime t) ++
     ["."%char] ++ pad3 (msFromTime t) ++ ["Z"%char]) = true.
Proof.
  intros Hm Hd.
  assert (Hd31 : DaysInMonth y m <= 31).
  { unfold DaysInMonth. destruct (InLeapYear y), m as [|p|p]; try lia;
      do 4 (try destruct p as [p|p|]; try lia). }
  assert (Hh : 0 <= HourFromTime t < 24) by (apply Z.mod_pos_bound; lia).
  assert (Hmi : 0 <= MinFromTime t < 60) by (apply Z.mod_pos_bound; lia).
  assert (Hs : 0 <= SecFromTime t < 60) by (apply Z.mod_pos_bound; lia).
  assert (Hms : 0 <= msFromTime t < 1000) by (apply Z.mod_pos_bound; lia).
  change (time_ok y _) with
    (true &&
     match number (pad2 m), number (pad2 d), number (pad2 (HourFromTime t)),
           number (pad2 (MinFromTime t)), number (pad2 (SecFromTime t)),
           number (pad3 (msFromTime t)) with
     | Some mo, Some d, Some h, Some mi, Some s, Some _ =>
       (1 <=? mo) && (mo <=? 12) && (1 <=? d) && (d <=? DaysInMonth y mo) &&
       (h <=? 23) && (mi <=? 59) && (s <=? 59)
     | _, _, _, _, _, _ => false
     end).
  rewrite !number_pad2, number_pad3 by lia.
  cbn [andb].
  repeat (apply andb_true_intro; split); apply Z.leb_le; lia.
Qed.

Lemma toISOString_valid t :
  time_value t -> isISOString (toISOString t) = true.
Proof.
  unfold time_value. intros Ht. unfold toISOString.
  pose proof (civil_ok (Day t)) as Hc.
  assert (Hy : -999999 <= (civil (Day t)).1.1 <= 999999).
  { apply civil_year. unfold Day, msPerDay. zlia. }
  destruct (civil (Day t)) as [[y m] d]. cbn [fst snd] in Hy.
  destruct Hc as [Hm Hd].
  pose proof (time_ok_intro y m d t Hm Hd) as Hok.
  unfold isISOString. rewrite list_ascii_of_string_of_list_ascii.
  set (rest := _ ++ _) in Hok |- *.
  assert (Hlen : length rest = 20%nat) by reflexivity.
  clearbody rest.
  unfold year_chars.
  destruct ((0 <=? y) && (y <=? 9999)) eqn:E4.
  - apply andb_prop in E4 as [E1 E2]. apply Z.leb_le in E1, E2.
    replace (length (pad4 y ++ rest) =? 24)%nat with true
      by (rewrite length_app, Hlen; reflexivity).
    change (take 4 (pad4 y ++ rest)) with (pad4 y).
    change (drop 4 (pad4 y ++ rest)) with rest.
    rewrite number_pad4 by lia. exact Hok.
  - assert (Hr : y < 0 \/ 9999 < y).
    { apply andb_false_iff in E4 as [E|E]; apply Z.leb_gt in E; lia. }
    set (sg := if y <? 0 then "-"%char else "+"%char).
    replace (length ((sg :: pad6 (Z.abs y)) ++ rest) =? 24)%nat with false
      by (rewrite length_app, Hlen; reflexivity).
    change ((sg :: pad6 (Z.abs y)) ++ rest)
      with (sg :: (pad6 (Z.abs y) ++ rest)).
    cbv iota.
    replace (length (pad6 (Z.abs y) ++ rest) =? 26)%nat with true
      by (rewrite length_app, Hlen; reflexivity).
    change (take 6 (pad6 (Z.abs y) ++ rest)) with (pad6 (Z.abs y)).
    change (drop 6 (pad6 (Z.abs y) ++ rest)) with rest.
    rewrite number_pad6 by lia. cbn [andb].
    subst sg. destruct (Z.ltb_spec y 0) as [Hn|Hn].
    + apply orb_true_iff. right.
      replace (- Z.abs y) with y by lia. rewrite Hok.
      replace (Z.abs y =? 0) with false by (symmetry; apply Z.eqb_neq; lia).
      reflexivity.
    + apply orb_true_iff. left.
      replace (Z.abs y) with y by lia. rewrite Hok. reflexivity.
Qed.

Lemma toISOString_nonempty t : toISOString t <> "".
Proof.
  unfold toISOString. destruct (civil (Day t)) as [[y m] d].
  unfold year_chars. destruct (_ && _); discriminate.
Qed.

Lemma or_else_nonempty a b : b <> "" -> or_else a b <> "".
Proof. destruct a; [trivial | discriminate]. Qed.

Example toISOString_new_year :
  toISOString new_year_2025 = "2025-01-01T00:00:00.000Z".
Proof. reflexivity. Qed.

Example toISOString_leap_day :
  toISOString 1709251199999 = "2024-02-29T23:59:59.999Z".
Proof. reflexivity. Qed.

Example toISOString_latest :
  toISOString 8640000000000000 = "+275760-09-13T00:00:00.000Z".
Proof. reflexivity. Qed.

Example isISOString_rejects_february_30 :
  isISOString "2025-02-30T00:00:00.000Z" = false.
Proof. reflexivity. Qed.

(** ** [Set]: [add] and [delete] *)

Local Open Scope nat_scope.

Lemma elem_of_set_add x l (es : SetData) :
  Some x ∈ set_add l es ↔ x = l ∨ Some x ∈ es.
Proof.
  unfold set_add, set_has. case_bool_decide as H.
  - split; [auto | intros [-> | ?]; auto].
  - rewrite elem_of_app, list_elem_of_singleton. split.
    + intros [?|[= ->]]; auto.
    + intros [->|?]; auto.
Qed.

Lemma elem_of_set_delete x l (es : SetData) :
  Some x ∈ set_delete l es ↔ x ≠ l ∧ Some x ∈ es.
Proof.
  unfold set_delete. rewrite list_elem_of_fmap. split.
  - intros (e & He & Hin). case_decide; [discriminate|].
    subst e. split; [congruence | done].
  - intros [Hne Hin]. exists (Some x). split; [|done].
    case_decide; congruence.
Qed.

Lemma set_add_present l (es : SetData) : Some l ∈ es → set_add l es = es.
Proof. intros H. unfold set_add, set_has. by rewrite bool_decide_eq_true_2. Qed.

Lemma set_add_absent l (es : SetData) :
  Some l ∉ es → set_add l es = es ++ [Some l].
Proof. intros H. unfold set_add, set_has. by rewrite bool_decide_eq_false_2. Qed.

Lemma set_delete_absent l (es : SetData) : Some l ∉ es → set_delete l es = es.
Proof.
  intros H. unfold set_delete. induction es as [|e es IH]; [done|].
  rewrite not_elem_of_cons in H. destruct H as [Hne Hin].
  cbn. rewrite IH by done. case_decide; congruence.
Qed.

Lemma set_delete_gone l (es : SetData) : Some l ∉ set_delete l es.
Proof. rewrite elem_of_set_delete. by intros [? _]. Qed.



Lemma elem_of_set_values l (es : SetData) : l ∈ set_values es ↔ Some l ∈ es.
Proof.
  unfold set_values. rewrite list_elem_of_omap. split.
  - intros (e & Hin & He). destruct e; simplify_eq/=. done.
  - intros H. exists (Some l). done.
Qed.

Lemma set_values_app (es es' : SetData) :
  set_values (es ++ es') = set_values es ++ set_values es'.
Proof. apply omap_app. Qed.

Lemma set_values_add l (es : SetData) :
  set_values (set_add l es) =
  if decide (l ∈ set_values es) then set_values es else set_values es ++ [l].
Proof.
  case_decide as H; rewrite elem_of_set_values in H.
  - by rewrite set_add_present.
  - by rewrite set_add_absent, set_values_app.
Qed.

Lemma set_values_delete l (es : SetData) :
  set_values (set_delete l es) = filter (λ x, x ≠ l) (set_values es).
Proof.
  unfold set_values, set_delete. induction es as [|[x|] es IH]; [done| |done].
  rewrite fmap_cons. case_decide as H.
  - simplify_eq. cbn [omap list_omap id].
    rewrite filter_cons_False by (intros Hx; by apply Hx). exact IH.
  - cbn [omap list_omap id].
    rewrite filter_cons_True by congruence. f_equal. exact IH.
Qed.

Lemma set_add_NoDup l (es : SetData) :
  NoDup (set_values es) → NoDup (set_values (set_add l es)).
Proof.
  intros H. rewrite set_values_add. case_decide as Hin; [done|].
  apply NoDup_app. split_and!; [done | | apply NoDup_singleton].
  intros x Hx ->%list_elem_of_singleton. done.
Qed.

Lemma set_delete_NoDup l (es : SetData) :
  NoDup (set_values es) → NoDup (set_values (set_delete l es)).
Proof. intros H. rewrite set_values_delete. by apply NoDup_filter. Qed.

(** With no duplicate among the values, a listener has one slot. *)
Lemma slot_unique l (es : SetData) i j :
  NoDup (set_values es) →
  es !! i = Some (Some l) → es !! j = Some (Some l) → i = j.
Proof.
  unfold set_values. revert i j. induction es as [|e es IH]; intros i j Hnd Hi Hj.
  - by rewrite lookup_nil in Hi.
  - assert (Hx : ∀ k, es !! k = Some (Some l) → l ∈ omap id es).
    { intros k Hk. apply list_elem_of_omap. exists (Some l).
      split; [by eapply list_elem_of_lookup_2 | done]. }
    destruct e as [x|]; cbn in Hnd.
    + apply NoDup_cons in Hnd as [Hx' Hnd].
      destruct i as [|i], j as [|j]; simplify_eq/=; try done.
      * exfalso. eauto.
      * exfalso. eauto.
      * f_equal. eauto.
    + destruct i as [|i], j as [|j]; simplify_eq/=. f_equal. eauto.
Qed.

Lemma evolves_refl es : evolves es es.
Proof. intros j x H. by left. Qed.

Lemma evolves_trans es1 es2 es3 :
  evolves es1 es2 → evolves es2 es3 → evolves es1 es3.
Proof.
  intros H12 H23 j x H.
  destruct (H12 j x H) as [H2|H2]; destruct (H23 _ _ H2) as [H3|H3]; auto.
Qed.

Lemma evolves_add l es : evolves es (set_add l es).
Proof.
  intros j x H. left. unfold set_add. destruct (set_has l es); [done|].
  by apply lookup_app_l_Some.
Qed.

Lemma evolves_delete l es : evolves es (set_delete l es).
Proof.
  intros j x H. unfold set_delete. rewrite list_lookup_fmap, H. cbn.
  case_decide; auto.
Qed.

Lemma evolves_length es es' : evolves es es' → length es ≤ length es'.
Proof.
  intros H. destruct (decide (length es ≤ length es')) as [|Hn]; [done|].
  exfalso. assert (Hlt : length es' < length es) by lia.
  destruct (lookup_lt_is_Some_2 es (length es') Hlt) as [x Hx].
  destruct (H _ _ Hx) as [H'|H'];
    apply lookup_lt_Some in H'; lia.
Qed.

Lemma add_keeps_absent g l k (es : SetData) :
  g ≠ l → Some l ∉ drop k es → Some l ∉ drop k (set_add g es).
Proof.
  intros Hne Habs. unfold set_add. destruct (set_has g es); [done|].
  intros Hin. apply list_elem_of_lookup in Hin as [i Hi].
  rewrite lookup_drop in Hi. apply lookup_app_Some in Hi as [Hi|[_ Hi]].
  - apply Habs, list_elem_of_lookup. exists i. by rewrite lookup_drop.
  - apply list_lookup_singleton_Some in Hi as [_ Hi]. congruence.
Qed.

Lemma delete_keeps_absent g l k (es : SetData) :
  Some l ∉ drop k es → Some l ∉ drop k (set_delete g es).
Proof.
  intros Habs Hin. apply Habs. unfold set_delete in Hin.
  rewrite <- fmap_drop in Hin. apply list_elem_of_fmap in Hin as (e & He & Hin).
  case_decide; [discriminate|]. by subst e.
Qed.

Lemma add_slots g l j (es : SetData) :
  g ≠ l ∨ Some l ∈ es →
  set_add g es !! j = Some (Some l) ↔ es !! j = Some (Some l).
Proof.
  intros H. unfold set_add, set_has. case_bool_decide as Hg; [done|].
  assert (Hne : g ≠ l) by (destruct H; congruence).
  split; [|apply lookup_app_l_Some].
  intros [Hj|[_ Hj]]%lookup_app_Some; [done|].
  apply list_lookup_singleton_Some in Hj as [_ Hj]. congruence.
Qed.

Lemma delete_slots g l j (es : SetData) :
  g ≠ l → set_delete g es !! j = Some (Some l) ↔ es !! j = Some (Some l).
Proof.
  intros Hne. unfold set_delete. rewrite list_lookup_fmap.
  destruct (es !! j) as [e|]; cbn; [|done].
  case_decide; split; intros; simplify_eq; done.
Qed.

Lemma elem_of_drop_slot l k (es : SetData) :
  Some l ∈ drop k es ↔ ∃ j, k ≤ j ∧ es !! j = Some (Some l).
Proof.
  rewrite list_elem_of_lookup. split.
  - intros [i Hi]. rewrite lookup_drop in Hi. exists (k + i). split; [lia|done].
  - intros (j & Hle & Hj). exists (j - k). rewrite lookup_drop.
    by replace (k + (j - k)) with j by lia.
Qed.

(** * Facts about the manager *)

Section Pass.

Context {Ext Err B : Type}.
Variable code : Fn → option (ISubscription Ext) → list (@Call Ext) →
                list (@Cmd Err).
Variable config : ISubscriptionManagerConfig (ISubscription Ext) Err B.

Implicit Types (w : @World Ext B) (v : option (ISubscription Ext)).
Implicit Types (body : list (@Cmd Err)) (l f g : Fn).

Lemma with_calls_id w : with_calls (calls w) w = w.
Proof. by destruct w. Qed.

Lemma with_calls_twice cs cs' w :
  with_calls cs (with_calls cs' w) = with_calls cs w.
Proof. done. Qed.

Lemma since_app w w' new : calls w' = calls w ++ new → since w w' = new.
Proof. intros H. unfold since. by rewrite H, drop_app_length. Qed.

Lemma times_app l (cs cs' : list (@Call Ext)) :
  times l (cs ++ cs') = times l cs + times l cs'.
Proof. unfold times, callees. by rewrite fmap_app, filter_app, length_app. Qed.

Lemma times_cons l f v (cs : list (@Call Ext)) :
  times l ((f, v) :: cs) = (if decide (f = l) then 1 else 0) + times l cs.
Proof.
  unfold times, callees. rewrite fmap_cons, filter_cons. cbn [fst].
  by case_decide.
Qed.

Lemma times_absent l (cs : list (@Call Ext)) :
  l ∉ callees cs → times l cs = 0.
Proof.
  induction cs as [|[f v] cs IH]; [done|].
  unfold callees. rewrite fmap_cons. intros [Hne Hnin]%not_elem_of_cons.
  rewrite times_cons, decide_False by (cbn in Hne; congruence). by apply IH.
Qed.

(** ** The body of a callback *)

(** A body always finishes, and all it can change is the registry. *)
Lemma run_final body w :
  ∃ w', final (run (Err:=Err) body w) = Some w' ∧
        backend w' = backend w ∧ calls w' = calls w ∧ clock w' = clock w ∧
        evolves (listeners w) (listeners w') ∧
        (NoDup (set_values (listeners w)) →
         NoDup (set_values (listeners w'))).
Proof.
  revert w. induction body as [|[g|g|e] body IH]; intros w; cbn [run].
  - exists w. split_and!; auto using evolves_refl.
  - destruct (IH (subscribe g w)) as (w' & Hf & ? & ? & ? & Hev & Hnd).
    exists w'. split_and!; [done..| |].
    + eapply evolves_trans; [apply (evolves_add g)|exact Hev].
    + intros Hw. by apply Hnd, set_add_NoDup.
  - destruct (IH (unsubscribe g w)) as (w' & Hf & ? & ? & ? & Hev & Hnd).
    exists w'. split_and!; [done..| |].
    + eapply evolves_trans; [apply (evolves_delete g)|exact Hev].
    + intros Hw. by apply Hnd, set_delete_NoDup.
  - exists w. split_and!; auto using evolves_refl.
Qed.

Lemma run_keeps_absent l k body w w' :
  CSubscribe l ∉ body → final (run body w) = Some w' →
  Some l ∉ drop k (listeners w) → Some l ∉ drop k (listeners w').
Proof.
  revert w. induction body as [|[g|g|e] body IH]; intros w Hb Hf Habs;
    cbn [run] in Hf.
  - by simplify_eq/=.
  - apply not_elem_of_cons in Hb as [Hne Hb].
    apply (IH _ Hb Hf). cbn. apply add_keeps_absent; [congruence|done].
  - apply not_elem_of_cons in Hb as [_ Hb].
    apply (IH _ Hb Hf). cbn. by apply delete_keeps_absent.
  - by simplify_eq/=.
Qed.

Lemma run_keeps_slots l body w w' :
  CUnsubscribe l ∉ body → final (run body w) = Some w' →
  Some l ∈ listeners w →
  Some l ∈ listeners w' ∧
  ∀ j, listeners w' !! j = Some (Some l) ↔ listeners w !! j = Some (Some l).
Proof.
  revert w. induction body as [|[g|g|e] body IH]; intros w Hb Hf Hin;
    cbn [run] in Hf.
  - by simplify_eq/=.
  - apply not_elem_of_cons in Hb as [_ Hb].
    destruct (IH (subscribe g w) Hb Hf) as [Hin' Hs].
    { cbn. apply elem_of_set_add. by right. }
    split; [done|]. intros j. rewrite Hs. cbn. apply add_slots. by right.
  - apply not_elem_of_cons in Hb as [Hne Hb].
    assert (g ≠ l) by congruence.
    destruct (IH (unsubscribe g w) Hb Hf) as [Hin' Hs].
    { cbn. apply elem_of_set_delete. split; [congruence|done]. }
    split; [done|]. intros j. rewrite Hs. cbn. by apply delete_slots.
  - by simplify_eq/=.
Qed.

(** ** One call *)

Lemma call_final f v w :
  ∃ w', final (call code f v w) = Some w' ∧
        backend w' = backend w ∧ calls w' = calls w ++ [(f, v)] ∧
        clock w' = clock w ∧
        evolves (listeners w) (listeners w') ∧
        (NoDup (set_values (listeners w)) →
         NoDup (set_values (listeners w'))).
Proof.
  unfold call.
  destruct (run_final (code f v (calls w))
              (with_calls (calls w ++ [(f, v)]) w)) as (w' & ? & ? & ? & ? & ? & ?).
  exists w'. split_and!; done.
Qed.

Lemma call_quiet f v w :
  (∀ h, code f v h = []) →
  call code f v w = Resolved tt (with_calls (calls w ++ [(f, v)]) w).
Proof. intros H. unfold call. by rewrite H. Qed.

Lemma call_keeps_absent l k f v w w' :
  never_subscribed code l → final (call code f v w) = Some w' →
  Some l ∉ drop k (listeners w) → Some l ∉ drop k (listeners w').
Proof.
  intros Hn Hf Habs. unfold call in Hf.
  by eapply (run_keeps_absent l k _ _ _ (Hn _ _ _) Hf).
Qed.

Lemma call_keeps_slots l f v w w' :
  never_unsubscribed code l → final (call code f v w) = Some w' →
  Some l ∈ listeners w →
  Some l ∈ listeners w' ∧
  ∀ j, listeners w' !! j = Some (Some l) ↔ listeners w !! j = Some (Some l).
Proof.
  intros Hn Hf Hin. unfold call in Hf.
  by eapply (run_keeps_slots l _ _ _ (Hn _ _ _) Hf).
Qed.

(** ** [forEach] *)

Abbreviation each v := (λ fn, call code fn v).

Lemma forEach_S fuel (cb : Fn → @M Ext Err B unit) idx w :
  forEach (S fuel) cb idx w =
  match listeners w !! idx with
  | None => Resolved tt w
  | Some None => forEach fuel cb (S idx) w
  | Some (Some fn) => bind (cb fn) (λ _, forEach fuel cb (S idx)) w
  end.
Proof. reflexivity. Qed.

(** What a step of the loop at a registered listener amounts to. *)
Lemma forEach_step fuel v idx w f :
  listeners w !! idx = Some (Some f) →
  ∃ w1, final (call code f v w) = Some w1 ∧
        forEach (S fuel) (each v) idx w =
        match call code f v w with
        | Resolved _ _ => forEach fuel (each v) (S idx) w1
        | o => o
        end.
Proof.
  intros Hl. destruct (call_final f v w) as (w1 & Hf & _).
  exists w1. split; [done|]. rewrite forEach_S, Hl. unfold bind.
  destruct (call code f v w) as [[] w2|e w2|]; simplify_eq/=; done.
Qed.

(** More fuel does not change the result of a pass that finished. *)
Lemma forEach_fuel_mono v fuel fuel' idx w :
  fuel ≤ fuel' →
  is_Some (final (forEach fuel (each v) idx w)) →
  forEach fuel' (each v) idx w = forEach fuel (each v) idx w.
Proof.
  revert fuel' idx w. induction fuel as [|fuel IH]; intros fuel' idx w Hle Hs.
  - by destruct Hs as [? [=]].
  - destruct fuel' as [|fuel']; [lia|]. rewrite !forEach_S in *.
    destruct (listeners w !! idx) as [[f|]|]; [|apply IH; [lia|done]|done].
    unfold bind in *. destruct (call code f v w) as [[] w1|e w1|]; [|done..].
    apply IH; [lia|done].
Qed.

(** A pass changes neither the backend nor the clock, only appends to
    the history, calls every callback with the same value, and leaves
    the registry a well-formed set. *)
Lemma forEach_frame v fuel idx w w' :
  final (forEach fuel (each v) idx w) = Some w' →
  backend w' = backend w ∧ clock w' = clock w ∧
  evolves (listeners w) (listeners w') ∧
  (NoDup (set_values (listeners w)) → NoDup (set_values (listeners w'))) ∧
  ∃ new, calls w' = calls w ++ new ∧ Forall (λ c, c.2 = v) new.
Proof.
  revert idx w. induction fuel as [|fuel IH]; intros idx w Hf; [done|].
  destruct (listeners w !! idx) as [[f|]|] eqn:Hl.
  - destruct (forEach_step fuel v idx w f Hl) as (w1 & Hf1 & Heq).
    rewrite Heq in Hf. clear Heq.
    destruct (call_final f v w) as (w1' & Hf1' & Hb & Hc & Hk & Hev & Hnd).
    assert (w1' = w1) as -> by congruence.
    assert (Hone : ∃ new, calls w1 = calls w ++ new ∧ Forall (λ c, c.2 = v) new).
    { exists [(f, v)]. split; [done|]. by constructor. }
    destruct (call code f v w) as [[] w2|e w2|]; simplify_eq/=; [|done].
    destruct (IH _ _ Hf) as (Hb' & Hk' & Hev' & Hnd' & new & Hc' & Hall).
    split_and!; [congruence | congruence | by eapply evolves_trans | auto |].
    exists ((f, v) :: new). split.
    + rewrite Hc', Hc, <- app_assoc. done.
    + by constructor.
  - rewrite forEach_S, Hl in Hf. apply IH in Hf. done.
  - rewrite forEach_S, Hl in Hf. simplify_eq/=.
    split_and!; auto using evolves_refl.
    exists []. split; [by rewrite app_nil_r | constructor].
Qed.

(** The loop is live: whoever is registered, from [idx] on, when the
    pass completes has been called during the pass. *)
Lemma forEach_invoked v fuel idx w w' :
  forEach fuel (each v) idx w = Resolved tt w' →
  ∃ new, calls w' = calls w ++ new ∧
         ∀ j l, idx ≤ j → listeners w' !! j = Some (Some l) → (l, v) ∈ new.
Proof.
  revert idx w. induction fuel as [|fuel IH]; intros idx w Hr; [done|].
  destruct (listeners w !! idx) as [[f|]|] eqn:Hl.
  - destruct (forEach_step fuel v idx w f Hl) as (w1 & Hf1 & Heq).
    rewrite Heq in Hr. clear Heq.
    destruct (call_final f v w) as (w1' & Hf1' & _ & Hc & _ & Hev & _).
    assert (w1' = w1) as -> by congruence.
    destruct (call code f v w) as [[] w2|e w2|]; simplify_eq/=.
    destruct (IH _ _ Hr) as (new & Hc' & Hin).
    assert (Hev' : evolves (listeners w1) (listeners w')).
    { eapply forEach_frame. by rewrite Hr. }
    exists ((f, v) :: new). split; [by rewrite Hc', Hc, <- app_assoc|].
    intros j l Hj Hs. destruct (decide (j = idx)) as [->|Hne].
    + destruct (Hev _ _ Hl) as [H1|H1]; destruct (Hev' _ _ H1) as [H2|H2];
        rewrite Hs in H2; simplify_eq. left.
    + right. apply (Hin j); [lia|done].
  - rewrite forEach_S, Hl in Hr. destruct (IH _ _ Hr) as (new & Hc & Hin).
    assert (Hev : evolves (listeners w) (listeners w')).
    { eapply forEach_frame. by rewrite Hr. }
    exists new. split; [done|]. intros j l Hj Hs.
    destruct (decide (j = idx)) as [->|Hne].
    + destruct (Hev _ _ Hl) as [H1|H1]; rewrite Hs in H1; simplify_eq.
    + apply (Hin j); [lia|done].
  - rewrite forEach_S, Hl in Hr. simplify_eq/=.
    exists []. split; [by rewrite app_nil_r|]. intros j l Hj Hs.
    apply lookup_ge_None in Hl. apply lookup_lt_Some in Hs. lia.
Qed.

(** A listener that has no slot ahead of the loop, and that no
    callback registers, is not called in what remains of the pass. *)
Lemma forEach_zero l v fuel idx w w' :
  never_subscribed code l →
  final (forEach fuel (each v) idx w) = Some w' →
  Some l ∉ drop idx (listeners w) →
  ∃ new, calls w' = calls w ++ new ∧ l ∉ callees new.
Proof.
  intros Hn. revert idx w. induction fuel as [|fuel IH]; intros idx w Hf Habs;
    [done|].
  assert (Hnext : Some l ∉ drop (S idx) (listeners w)).
  { intros (j & Hj & Hs)%elem_of_drop_slot. apply Habs, elem_of_drop_slot.
    exists j. split; [lia|done]. }
  destruct (listeners w !! idx) as [[f|]|] eqn:Hl.
  - assert (Hfl : f ≠ l).
    { intros ->. apply Habs, elem_of_drop_slot. by exists idx. }
    destruct (forEach_step fuel v idx w f Hl) as (w1 & Hf1 & Heq).
    rewrite Heq in Hf. clear Heq.
    destruct (call_final f v w) as (w1' & Hf1' & _ & Hc & _).
    assert (w1' = w1) as -> by congruence.
    pose proof (call_keeps_absent l (S idx) f v w w1 Hn Hf1 Hnext) as Habs1.
    destruct (call code f v w) as [[] w2|e w2|]; simplify_eq/=.
    + destruct (IH _ _ Hf Habs1) as (new & Hc' & Hnin).
      exists ((f, v) :: new). split; [by rewrite Hc', Hc, <- app_assoc|].
      unfold callees. rewrite fmap_cons. apply not_elem_of_cons. done.
    + exists [(f, v)]. split; [done|]. unfold callees. cbn.
      apply not_elem_of_cons. split; [congruence | apply not_elem_of_nil].
  - rewrite forEach_S, Hl in Hf. by apply (IH (S idx)).
  - rewrite forEach_S, Hl in Hf. simplify_eq/=.
    exists []. split; [by rewrite app_nil_r | apply not_elem_of_nil].
Qed.

(** A listener that holds slot [p] and that no callback unregisters
    is called once if the loop has yet to reach [p], and not at all
    otherwise. *)
Lemma forEach_once l p v fuel idx w w' :
  never_unsubscribed code l →
  (∀ j, listeners w !! j = Some (Some l) ↔ j = p) →
  forEach fuel (each v) idx w = Resolved tt w' →
  ∃ new, calls w' = calls w ++ new ∧
         times l new = if decide (idx ≤ p) then 1 else 0.
Proof.
  intros Hn. revert idx w. induction fuel as [|fuel IH]; intros idx w Hp Hr;
    [done|].
  assert (Hin : Some l ∈ listeners w).
  { apply list_elem_of_lookup. exists p. by apply Hp. }
  destruct (listeners w !! idx) as [[f|]|] eqn:Hl.
  - destruct (forEach_step fuel v idx w f Hl) as (w1 & Hf1 & Heq).
    rewrite Heq in Hr. clear Heq.
    destruct (call_final f v w) as (w1' & Hf1' & _ & Hc & _).
    assert (w1' = w1) as -> by congruence.
    destruct (call_keeps_slots l f v w w1 Hn Hf1 Hin) as [_ Hs].
    destruct (call code f v w) as [[] w2|e w2|]; simplify_eq/=.
    destruct (IH (S idx) w1) as (new & Hc' & Ht); [|done|].
    { intros j. by rewrite Hs. }
    exists ((f, v) :: new). split; [by rewrite Hc', Hc, <- app_assoc|].
    rewrite times_cons, Ht. destruct (decide (f = l)) as [->|Hfl].
    + apply Hp in Hl as ->. repeat case_decide; lia.
    + assert (idx ≠ p) by (intros ->; apply Hfl;
        assert (listeners w !! p = Some (Some l)) by (by apply Hp); congruence).
      repeat case_decide; lia.
  - rewrite forEach_S, Hl in Hr.
    destruct (IH (S idx) w Hp Hr) as (new & Hc & Ht).
    exists new. split; [done|]. rewrite Ht.
    assert (idx ≠ p) by (intros ->;
      assert (listeners w !! p = Some (Some l)) by (by apply Hp); congruence).
    repeat case_decide; lia.
  - rewrite forEach_S, Hl in Hr. simplify_eq/=.
    exists []. split; [by rewrite app_nil_r|].
    assert (Hlt : p < length (listeners w')).
    { eapply lookup_lt_Some. by apply Hp. }
    apply lookup_ge_None in Hl. case_decide; [lia|done].
Qed.

(** With callbacks that do nothing to the manager the pass is a plain
    iteration over the listeners, in insertion order. *)
Lemma forEach_quiet v fuel idx w :
  quiet code (set_values (listeners w)) →
  length (listeners w) - idx < fuel →
  forEach fuel (each v) idx w =
  Resolved tt
    (with_calls
       (calls w ++ ((λ f, (f, v)) <$> set_values (drop idx (listeners w)))) w).
Proof.
  revert idx w. induction fuel as [|fuel IH]; intros idx w Hq Hlen; [lia|].
  - rewrite forEach_S. destruct (listeners w !! idx) as [[f|]|] eqn:Hl.
    + rewrite (drop_S _ _ _ Hl). unfold bind.
      rewrite call_quiet.
      2:{ intros h. apply Hq, elem_of_set_values.
          by eapply list_elem_of_lookup_2. }
      apply lookup_lt_Some in Hl as Hlt.
      rewrite IH; [|done|cbn; lia].
      cbn. rewrite <- app_assoc. done.
    + apply lookup_lt_Some in Hl as Hlt.
      rewrite (drop_S _ _ _ Hl). rewrite IH; [done|done|lia].
    + rewrite drop_ge by (by apply lookup_ge_None).
      cbn. by rewrite app_nil_r, with_calls_id.
Qed.

(** ** [notify] *)

Lemma notify_eq fuel v w :
  notify code config fuel v w =
  match onChange config with
  | Some f => bind (call code f v) (λ _, forEach fuel (each v) 0) w
  | None => forEach fuel (each v) 0 w
  end.
Proof. unfold notify. by destruct (onChange config). Qed.

Lemma notify_frame fuel v w w' :
  final (notify code config fuel v w) = Some w' →
  backend w' = backend w ∧ clock w' = clock w ∧
  evolves (listeners w) (listeners w') ∧
  (NoDup (set_values (listeners w)) → NoDup (set_values (listeners w'))) ∧
  Forall (λ c, c.2 = v) (since w w').
Proof.
  rewrite notify_eq. destruct (onChange config) as [f|].
  - unfold bind.
    destruct (call_final f v w) as (w1 & Hf1 & Hb & Hc & Hk & Hev & Hnd).
    destruct (call code f v w) as [[] w2|e w2|]; simplify_eq/=.
    + intros (Hb' & Hk' & Hev' & Hnd' & new & Hc' & Hall)%forEach_frame.
      split_and!; [congruence | congruence | by eapply evolves_trans | auto |].
      rewrite (since_app w w' ((f, v) :: new))
        by (by rewrite Hc', Hc, <- app_assoc).
      by constructor.
    + intros [= <-]. split_and!; [done..|].
      rewrite (since_app w w1 [(f, v)]) by done. by repeat constructor.
  - intros (Hb' & Hk' & Hev' & Hnd' & new & Hc' & Hall)%forEach_frame.
    split_and!; [done..|]. by rewrite (since_app w w' new).
Qed.

(** The change callback, when there is one, is the first to be
    called. *)
Lemma notify_head fuel v w w' f :
  onChange config = Some f →
  final (notify code config fuel v w) = Some w' →
  head (since w w') = Some (f, v).
Proof.
  intros Hoc. rewrite notify_eq, Hoc. unfold bind.
  destruct (call_final f v w) as (w1 & Hf1 & _ & Hc & _).
  destruct (call code f v w) as [[] w2|e w2|]; simplify_eq/=.
  - intros (_ & _ & _ & _ & new & Hc' & _)%forEach_frame.
    by rewrite (since_app w w' ((f, v) :: new))
      by (by rewrite Hc', Hc, <- app_assoc).
  - intros [= <-]. by rewrite (since_app w w1 [(f, v)]).
Qed.

Lemma notify_invoked fuel v w w' l :
  notify code config fuel v w = Resolved tt w' →
  Some l ∈ listeners w' → (l, v) ∈ since w w'.
Proof.
  rewrite notify_eq. intros Hr [j Hj]%list_elem_of_lookup.
  destruct (onChange config) as [f|].
  - unfold bind in Hr.
    destruct (call_final f v w) as (w1 & Hf1 & _ & Hc & _).
    destruct (call code f v w) as [[] w2|e w2|]; simplify_eq/=.
    destruct (forEach_invoked _ _ _ _ _ Hr) as (new & Hc' & Hin).
    rewrite (since_app w w' ((f, v) :: new))
      by (by rewrite Hc', Hc, <- app_assoc).
    right. apply (Hin j); [lia | done].
  - destruct (forEach_invoked _ _ _ _ _ Hr) as (new & Hc' & Hin).
    rewrite (since_app w w' new) by done. apply (Hin j); [lia | done].
Qed.

Lemma notify_zero fuel v w w' l :
  never_subscribed code l → onChange config ≠ Some l →
  Some l ∉ listeners w →
  final (notify code config fuel v w) = Some w' →
  l ∉ callees (since w w').
Proof.
  intros Hn Hoc Habs. rewrite notify_eq. destruct (onChange config) as [f|].
  - unfold bind.
    destruct (call_final f v w) as (w1 & Hf1 & _ & Hc & _).
    pose proof (call_keeps_absent l 0 f v w w1 Hn Hf1 Habs) as Habs1.
    destruct (call code f v w) as [[] w2|e w2|]; simplify_eq/=.
    + intros Hf. destruct (forEach_zero l _ _ _ _ _ Hn Hf Habs1)
        as (new & Hc' & Hnin).
      rewrite (since_app w w' ((f, v) :: new))
        by (by rewrite Hc', Hc, <- app_assoc).
      unfold callees. rewrite fmap_cons. apply not_elem_of_cons.
      split; [cbn; congruence | done].
    + intros [= <-]. rewrite (since_app w w1 [(f, v)]) by done.
      unfold callees. cbn. apply not_elem_of_cons.
      split; [congruence | apply not_elem_of_nil].
  - intros Hf. destruct (forEach_zero l _ _ _ _ _ Hn Hf Habs)
      as (new & Hc' & Hnin).
    by rewrite (since_app w w' new).
Qed.

Lemma notify_once fuel v w w' l :
  never_unsubscribed code l → onChange config ≠ Some l →
  NoDup (set_values (listeners w)) → Some l ∈ listeners w →
  notify code config fuel v w = Resolved tt w' →
  times l (since w w') = 1.
Proof.
  intros Hn Hoc Hnd Hin. pose proof Hin as [p Hp]%list_elem_of_lookup.
  assert (Hs : ∀ j, listeners w !! j = Some (Some l) ↔ j = p).
  { intros j. split; [|by intros ->].
    intros Hj. by apply (slot_unique l (listeners w)). }
  rewrite notify_eq. destruct (onChange config) as [f|].
  - unfold bind.
    destruct (call_final f v w) as (w1 & Hf1 & _ & Hc & _).
    destruct (call_keeps_slots l f v w w1 Hn Hf1 Hin) as [_ Hs1].
    destruct (call code f v w) as [[] w2|e w2|]; simplify_eq/=; [|done].
    intros Hr.
    assert (Hs' : ∀ j, listeners w1 !! j = Some (Some l) ↔ j = p).
    { intros j. by rewrite Hs1. }
    destruct (forEach_once l p v _ 0 w1 w' Hn Hs' Hr) as (new & Hc' & Ht).
    rewrite (since_app w w' ((f, v) :: new))
      by (by rewrite Hc', Hc, <- app_assoc).
    rewrite times_cons, Ht.
    rewrite decide_False by congruence.
    rewrite decide_True by lia. done.
  - intros Hr. destruct (forEach_once l p v _ 0 w w' Hn Hs Hr)
      as (new & Hc' & Ht).
    rewrite (since_app w w' new) by done.
    rewrite Ht. rewrite decide_True by lia. done.
Qed.

Lemma notify_quiet fuel v w :
  quiet code (observers config w) → length (listeners w) < fuel →
  notify code config fuel v w =
  Resolved tt
    (with_calls (calls w ++ ((λ f, (f, v)) <$> observers config w)) w).
Proof.
  unfold observers. intros Hq Hlen. rewrite notify_eq.
  destruct (onChange config) as [f|]; cbn [option_list] in *.
  - unfold bind. rewrite call_quiet.
    2:{ intros h. apply Hq. by left. }
    rewrite forEach_quiet; [|cbn|cbn; lia].
    + cbn. rewrite drop_0, <- app_assoc. done.
    + intros g Hg. apply Hq. by right.
  - rewrite forEach_quiet; [|done|lia]. by rewrite drop_0.
Qed.

(** ** The operations, in terms of the storage call *)

Lemma setSubscription_eq fuel (subscription : ISubscription Ext) w :
  setSubscription code config fuel subscription w =
  match set (storage config) (storageKey config)
            (toStore (clock w) subscription) (backend w) with
  | (inr _, b) =>
    notify code config fuel (Some (toStore (clock w) subscription))
      (with_backend b w)
  | (inl e, b) => Rejected e (with_backend b w)
  end.
Proof.
  unfold setSubscription, bind, port.
  by destruct (set _ _ _ _) as [[e|[]] b].
Qed.

Lemma clearSubscription_eq fuel w :
  clearSubscription code config fuel w =
  match remove (storage config) (storageKey config) (backend w) with
  | (inr _, b) => notify code config fuel None (with_backend b w)
  | (inl e, b) => Rejected e (with_backend b w)
  end.
Proof.
  unfold clearSubscription, bind, port.
  by destruct (remove _ _ _) as [[e|[]] b].
Qed.

Lemma getSubscription_eq w :
  getSubscription config w =
  match get (storage config) (storageKey config) (backend w) with
  | (inr r, b) => Resolved r (with_backend b w)
  | (inl e, b) => Rejected e (with_backend b w)
  end.
Proof. reflexivity. Qed.

(** A successful [setSubscription] is a successful write followed by
    a completed pass. *)
Lemma setSubscription_resolved fuel (subscription : ISubscription Ext) w w' :
  setSubscription code config fuel subscription w = Resolved tt w' →
  ∃ b, set (storage config) (storageKey config)
           (toStore (clock w) subscription) (backend w) = (inr tt, b) ∧
       notify code config fuel (Some (toStore (clock w) subscription))
         (with_backend b w) = Resolved tt w' ∧
       backend w' = b.
Proof.
  rewrite setSubscription_eq.
  destruct (set _ _ _ _) as [[e|[]] b]; [done|].
  intros Hn. exists b. split_and!; [done..|].
  eapply (notify_frame _ _ (with_backend b w)). by rewrite Hn.
Qed.

Lemma with_backend_id w : with_backend (backend w) w = w.
Proof. by destruct w. Qed.

Lemma notify_onChange_once fuel v w w' f :
  onChange config = Some f → Some f ∉ listeners w →
  never_subscribed code f →
  final (notify code config fuel v w) = Some w' →
  times f (since w w') = 1.
Proof.
  intros Hoc Habs Hn. rewrite notify_eq, Hoc. unfold bind.
  destruct (call_final f v w) as (w1 & Hf1 & _ & Hc & _).
  pose proof (call_keeps_absent f 0 f v w w1 Hn Hf1 Habs) as Habs1.
  destruct (call code f v w) as [[] w2|e w2|]; simplify_eq/=.
  - intros Hf. destruct (forEach_zero f _ _ _ _ _ Hn Hf Habs1)
      as (new & Hc' & Hnin).
    rewrite (since_app w w' ((f, v) :: new))
      by (by rewrite Hc', Hc, <- app_assoc).
    rewrite times_cons, decide_True by done.
    by rewrite times_absent.
  - intros [= <-]. rewrite (since_app w w1 [(f, v)]) by done.
    by rewrite times_cons, decide_True.
Qed.

Lemma notify_notified fuel v w w' :
  registry_ok w →
  notify code config fuel v w = Resolved tt w' →
  notified code config v w w'.
Proof.
  intros Hok Hr. assert (Hf : final (notify code config fuel v w) = Some w')
    by (by rewrite Hr).
  split_and!.
  - by eapply notify_frame.
  - intros f Hoc. split; [by eapply notify_head|].
    intros Habs Hn. by eapply notify_onChange_once.
  - intros l Hin Hn Hoc. by eapply notify_once.
Qed.

(** The registry stays a set whatever is done to it. *)
Lemma subscribe_ok l w : registry_ok w → registry_ok (subscribe l w).
Proof. apply set_add_NoDup. Qed.

Lemma unsubscribe_ok l w : registry_ok w → registry_ok (unsubscribe l w).
Proof. apply set_delete_NoDup. Qed.

Lemma notify_ok fuel v w w' :
  final (notify code config fuel v w) = Some w' →
  registry_ok w → registry_ok w'.
Proof. intros Hf. by eapply notify_frame. Qed.

(** ** Rejections

    The manager throws nothing of its own: a pass that rejects does so
    with the error some callback threw. *)

Lemma run_rejected body w e w' :
  run body w = Rejected e w' → CThrow e ∈ body.
Proof.
  revert w. induction body as [|[g|g|e0] body IH]; intros w Hr;
    cbn [run] in Hr.
  - done.
  - right. by eapply IH.
  - right. by eapply IH.
  - injection Hr as -> _. left.
Qed.

Lemma call_rejected f v w e w' :
  call code f v w = Rejected e w' → CThrow e ∈ code f v (calls w).
Proof. apply run_rejected. Qed.

Lemma forEach_rejected v fuel idx w e w' :
  forEach fuel (each v) idx w = Rejected e w' →
  ∃ f h, CThrow e ∈ code f v h.
Proof.
  revert idx w. induction fuel as [|fuel IH]; intros idx w Hr; [done|].
  rewrite forEach_S in Hr. destruct (listeners w !! idx) as [[f|]|]; [| |done].
  - unfold bind in Hr. destruct (call code f v w) as [[] w1|e1 w1|] eqn:Hc.
    + by eapply IH.
    + injection Hr as -> _. exists f, (calls w). by eapply call_rejected.
    + done.
  - by eapply IH.
Qed.

Lemma notify_rejected fuel v w e w' :
  notify code config fuel v w = Rejected e w' →
  ∃ f h, CThrow e ∈ code f v h.
Proof.
  rewrite notify_eq. destruct (onChange config) as [f|].
  - unfold bind. destruct (call code f v w) as [[] w1|e1 w1|] eqn:Hc.
    + apply forEach_rejected.
    + intros [= -> _]. exists f, (calls w). by eapply call_rejected.
    + done.
  - apply forEach_rejected.
Qed.

(** ** Fuel

    The fuel only bounds the length of a pass: a pass that finishes
    gives the same result with any larger fuel, and a pass in which no
    callback registers a listener finishes within one step per slot. *)

Lemma notify_fuel_mono fuel fuel' v w :
  fuel ≤ fuel' →
  is_Some (final (notify code config fuel v w)) →
  notify code config fuel' v w = notify code config fuel v w.
Proof.
  intros Hle. rewrite !notify_eq. destruct (onChange config) as [f|].
  - unfold bind. destruct (call code f v w) as [[] w1|e w1|]; [|done..].
    by apply forEach_fuel_mono.
  - by apply forEach_fuel_mono.
Qed.

Lemma setSubscription_fuel_mono fuel fuel' (subscription : ISubscription Ext) w :
  fuel ≤ fuel' →
  is_Some (final (setSubscription code config fuel subscription w)) →
  setSubscription code config fuel' subscription w
  = setSubscription code config fuel subscription w.
Proof.
  intros Hle. rewrite !setSubscription_eq.
  destruct (set _ _ _ _) as [[e|[]] b]; [done|]. by apply notify_fuel_mono.
Qed.

Lemma clearSubscription_fuel_mono fuel fuel' w :
  fuel ≤ fuel' →
  is_Some (final (clearSubscription code config fuel w)) →
  clearSubscription code config fuel' w = clearSubscription code config fuel w.
Proof.
  intros Hle. rewrite !clearSubscription_eq.
  destruct (remove _ _ _) as [[e|[]] b]; [done|]. by apply notify_fuel_mono.
Qed.






(** ** Mutations *)

Lemma mutate_eq fuel (m : Mutation) w :
  mutate code config fuel m w =
  match persist config m w with
  | (inr _, b) =>
    notify code config fuel (announced m w) (with_backend b w)
  | (inl e, b) => Rejected e (with_backend b w)
  end.
Proof.
  destruct m; [apply setSubscription_eq | apply clearSubscription_eq].
Qed.

Lemma since_with_backend b w w' : since (with_backend b w) w' = since w w'.
Proof. reflexivity. Qed.

Lemma since_same_calls w w' : calls w' = calls w → since w w' = [].
Proof. intros H. unfold since. rewrite H. apply drop_all. Qed.

(** A mutation that resolved wrote, or removed, and then completed
    its pass. *)
Lemma mutate_resolved fuel (m : Mutation) w w' :
  mutate code config fuel m w = Resolved tt w' →
  persist config m w = (inr tt, backend w') ∧
  notify code config fuel (announced m w) (with_backend (backend w') w)
  = Resolved tt w'.
Proof.
  rewrite mutate_eq. destruct (persist config m w) as [[e|[]] b]; [done|].
  intros Hn.
  assert (backend w' = b) as ->; [|done].
  eapply (notify_frame fuel _ (with_backend b w)). by rewrite Hn.
Qed.

(** A mutation that settled either failed in the storage, having
    called nobody, or went through its pass. *)
Lemma mutate_final fuel (m : Mutation) w w' :
  final (mutate code config fuel m w) = Some w' →
  (∃ e b, persist config m w = (inl e, b) ∧ w' = with_backend b w) ∨
  (∃ b, persist config m w = (inr tt, b) ∧
        final (notify code config fuel (announced m w) (with_backend b w))
        = Some w').
Proof.
  rewrite mutate_eq. destruct (persist config m w) as [[e|[]] b].
  - intros [= <-]. left. by exists e, b.
  - intros Hf. right. by exists b.
Qed.

Lemma mutate_ok fuel (m : Mutation) w w' :
  final (mutate code config fuel m w) = Some w' →
  registry_ok w → registry_ok w'.
Proof.
  intros [(e & b & _ & ->)|(b & _ & Hf)]%mutate_final Hok; [done|].
  by apply (notify_ok fuel _ (with_backend b w) w' Hf).
Qed.

Lemma mutate_fuel_mono fuel fuel' (m : Mutation) w :
  fuel ≤ fuel' →
  is_Some (final (mutate code config fuel m w)) →
  mutate code config fuel' m w = mutate code config fuel m w.
Proof.
  destruct m; [apply setSubscription_fuel_mono
              | apply clearSubscription_fuel_mono].
Qed.


(** With a storage that accepts the call and observers that leave the
    manager alone, a mutation succeeds and calls the observers in
    order: the change callback, then the listeners as they were
    inserted. *)
Lemma mutate_quiet fuel (m : Mutation) w b :
  quiet code (observers config w) → length (listeners w) < fuel →
  persist config m w = (inr tt, b) →
  mutate code config fuel m w =
  Resolved tt
    (with_calls
       (calls w ++ ((λ f, (f, announced m w)) <$> observers config w))
       (with_backend b w)).
Proof.
  intros Hq Hlen Hp. rewrite mutate_eq, Hp. by rewrite notify_quiet.
Qed.

(** * The specification, claim by claim *)

(** Claim C1, as the code has it.  A notification pass iterates the
    live listener set, not a snapshot.  Every listener that is
    registered when the pass of a successful mutation completes, in
    particular one that a callback registered during the pass, has
    been called in that pass.  And a listener that has no slot from
    the position of the loop on (for instance because a callback
    unregistered it before its turn) and that no callback registers is
    not called in the rest of the pass. *)
Theorem C1_live_iteration :
  (∀ fuel (m : Mutation) w w' l,
     mutate code config fuel m w = Resolved tt w' →
     Some l ∈ listeners w' → (l, announced m w) ∈ since w w') ∧
  (∀ fuel v idx w w' l,
     never_subscribed code l →
     final (forEach fuel (each v) idx w) = Some w' →
     Some l ∉ drop idx (listeners w) →
     l ∉ callees (since w w')).
Proof.
  split.
  - intros fuel m w w' l [_ Hn]%mutate_resolved Hin.
    rewrite <- (since_with_backend (backend w')).
    by eapply notify_invoked.
  - intros fuel v idx w w' l Hn Hf Habs.
    destruct (forEach_zero l v fuel idx w w' Hn Hf Habs) as (new & Hc & Hnin).
    by rewrite (since_app w w' new).
Qed.

(** Claim C2, as the code has it.  After a successful
    [setSubscription] the record written under the configured key (and
    read back from a storage that returns what was written) has a
    non-empty [updatedAt]: a valid ISO-8601 timestamp when the
    caller's [updatedAt] was empty, and the caller's value as it is,
    unchecked, when it was not. *)
Theorem C2_updatedAt_after_set fuel (subscription : ISubscription Ext) w w' :
  setSubscription code config fuel subscription w = Resolved tt w' →
  ∃ r, set (storage config) (storageKey config) r (backend w)
         = (inr tt, backend w') ∧
       (reads_back (storage config) →
        getSubscription config w' = Resolved (Some r) w') ∧
       updatedAt r ≠ "" ∧
       (updatedAt subscription = "" → time_value (clock w) →
        isISOString (updatedAt r) = true) ∧
       (updatedAt subscription ≠ "" → updatedAt r = updatedAt subscription).
Proof.
  intros (b & Hset & _ & <-)%setSubscription_resolved.
  exists (toStore (clock w) subscription). split_and!.
  - done.
  - intros Hrb. rewrite getSubscription_eq, (Hrb _ _ _ _ Hset).
    by rewrite with_backend_id.
  - cbn. destruct (updatedAt subscription) eqn:E; [|done].
    apply toISOString_nonempty.
  - intros E Ht. cbn. rewrite E. by apply toISOString_valid.
  - intros Hne. cbn. by destruct (updatedAt subscription).
Qed.

(** Claim C3, as the code has it.  [getSubscription] fails exactly
    when the storage read fails, with the same error.  A mutation
    ([setSubscription], [clearSubscription]) fails with the error of
    the storage, unchanged, when the write or the remove fails, and
    then no callback is called and the registry is untouched.  When
    the storage call succeeds the mutation goes on to notify, and its
    outcome is that of the notification pass: it fails only if a
    callback throws, and then with the error the callback threw. *)
Theorem C3_storage_failures :
  (∀ w e, (∃ w', getSubscription config w = Rejected e w') ↔
          (∃ b, get (storage config) (storageKey config) (backend w)
                = (inl e, b))) ∧
  (∀ fuel (m : Mutation) w e b,
     persist config m w = (inl e, b) →
     mutate code config fuel m w = Rejected e (with_backend b w) ∧
     since w (with_backend b w) = []) ∧
  (∀ fuel (m : Mutation) w b,
     persist config m w = (inr tt, b) →
     mutate code config fuel m w
     = notify code config fuel (announced m w) (with_backend b w) ∧
     ∀ e w', mutate code config fuel m w = Rejected e w' →
             ∃ f h, CThrow e ∈ code f (announced m w) h).
Proof.
  split_and!.
  - intros w e. rewrite getSubscription_eq.
    destruct (get _ _ _) as [[e'|r] b]; split.
    + intros [w' [= -> _]]. by exists b.
    + intros [b' [= -> _]]. by eexists.
    + by intros [w' [=]].
    + by intros [b' [=]].
  - intros fuel m w e b Hp. rewrite mutate_eq, Hp. split; [done|].
    by apply since_same_calls.
  - intros fuel m w b Hp. rewrite mutate_eq, Hp. split; [done|].
    intros e w'. apply notify_rejected.
Qed.

(** Claim C4.  The record [setSubscription] persists, which a later
    [getSubscription] returns from a storage that gives back what was
    written, has as [updatedAt] the current instant rendered by
    [toISOString] when the caller's [updatedAt] was empty, and the
    caller's [updatedAt] exactly when it was not. *)
Theorem C4_updatedAt_policy fuel (subscription : ISubscription Ext) w w' :
  setSubscription code config fuel subscription w = Resolved tt w' →
  ∃ r, set (storage config) (storageKey config) r (backend w)
         = (inr tt, backend w') ∧
       (reads_back (storage config) →
        getSubscription config w' = Resolved (Some r) w') ∧
       (updatedAt subscription = "" → updatedAt r = toISOString (clock w)) ∧
       (updatedAt subscription ≠ "" → updatedAt r = updatedAt subscription).
Proof.
  intros (b & Hset & _ & <-)%setSubscription_resolved.
  exists (toStore (clock w) subscription). split_and!.
  - done.
  - intros Hrb. rewrite getSubscription_eq, (Hrb _ _ _ _ Hset).
    by rewrite with_backend_id.
  - intros E. cbn. by rewrite E.
  - intros Hne. cbn. by destruct (updatedAt subscription).
Qed.

(** ** The mutations with their await *)

Lemma mutateAwait_eq meanwhile fuel (m : Mutation) w :
  mutateAwait code config meanwhile fuel m w =
  match persist config m w with
  | (inr _, _) =>
    notify code config fuel (announced m w) (resumed config meanwhile m w)
  | (inl e, _) => Rejected e (resumed config meanwhile m w)
  end.
Proof.
  unfold resumed.
  destruct m as [r|]; cbn [mutateAwait persist announced];
    unfold setSubscriptionAwait, clearSubscriptionAwait; cbv zeta.
  - by destruct (set _ _ _ _) as [[e|u] b].
  - by destruct (remove _ _ _) as [[e|u] b].
Qed.

(** The run with nothing in between is the atomic one. *)
Lemma mutateAwait_id fuel (m : Mutation) w :
  mutateAwait code config id fuel m w = mutate code config fuel m w.
Proof.
  destruct m as [r|]; cbn [mutateAwait mutate];
    unfold setSubscriptionAwait, clearSubscriptionAwait, setSubscription,
      clearSubscription, bind, port; cbv zeta.
  - by destruct (set _ _ _ _) as [[e|u] b].
  - by destruct (remove _ _ _) as [[e|u] b].
Qed.

Lemma mutateAwait_resolved meanwhile fuel (m : Mutation) w w' :
  mutateAwait code config meanwhile fuel m w = Resolved tt w' →
  (∃ b, persist config m w = (inr tt, b)) ∧
  notify code config fuel (announced m w) (resumed config meanwhile m w)
  = Resolved tt w'.
Proof.
  rewrite mutateAwait_eq.
  destruct (persist config m w) as [[e|[]] b]; [done|].
  intros Hn. split; [by eexists | done].
Qed.

Lemma mutateAwait_final meanwhile fuel (m : Mutation) w w' :
  final (mutateAwait code config meanwhile fuel m w) = Some w' →
  (∃ e b, persist config m w = (inl e, b) ∧
          w' = resumed config meanwhile m w) ∨
  (∃ b, persist config m w = (inr tt, b) ∧
        final (notify code config fuel (announced m w)
                 (resumed config meanwhile m w)) = Some w').
Proof.
  rewrite mutateAwait_eq.
  destruct (persist config m w) as [[e|[]] b].
  - intros [= <-]. left. by eexists _, _.
  - intros Hf. right. by eexists.
Qed.

(** A function that is not a listener when the pass starts, that no
    callback registers and that is not the change callback, is not
    called. *)
Lemma mutateAwait_zero meanwhile fuel (m : Mutation) w w' l :
  Some l ∉ listeners (resumed config meanwhile m w) →
  never_subscribed code l → onChange config ≠ Some l →
  final (mutateAwait code config meanwhile fuel m w) = Some w' →
  l ∉ callees (since (resumed config meanwhile m w) w').
Proof.
  intros Habs Hn Hoc [(e & b & _ & ->)|(b & _ & Hf)]%mutateAwait_final.
  - rewrite since_same_calls by done. apply not_elem_of_nil.
  - by eapply notify_zero.
Qed.



(** Claim C5, as the code has it.  On a successful mutation every
    call made to an observer carries the same value: the record as
    written to storage, auto-filled [updatedAt] included, for
    [setSubscription], the absent marker for [clearSubscription].
    The change callback, when present, is called first.  The pass
    runs after the await, over the listener set as it then is: a
    listener that is registered when the pass starts and that no
    callback unregisters during the pass is called exactly once (the
    pass iterates the live set); one that is not registered then, for
    instance because it was unsubscribed while the storage call was
    pending, is not called, unless a callback registers it or it is
    the change callback. *)
Theorem C5_fan_out meanwhile fuel (m : Mutation) w w' :
  registry_ok (resumed config meanwhile m w) →
  mutateAwait code config meanwhile fuel m w = Resolved tt w' →
  (∃ b, persist config m w = (inr tt, b)) ∧
  backend w' = backend (resumed config meanwhile m w) ∧
  notified code config (announced m w) (resumed config meanwhile m w) w' ∧
  (∀ l, Some l ∉ listeners (resumed config meanwhile m w) →
        never_subscribed code l → onChange config ≠ Some l →
        l ∉ callees (since (resumed config meanwhile m w) w')).
Proof.
  intros Hok Hm. pose proof Hm as [Hp Hn]%mutateAwait_resolved.
  split_and!; [done | | by eapply notify_notified |].
  - eapply notify_frame. by rewrite Hn.
  - intros l Habs Hns Hoc. eapply mutateAwait_zero; [done..|].
    by rewrite Hm.
Qed.



(** Claim C8.  The record [setSubscription] hands to the storage and
    to the observers is the caller's record with every field but
    [updatedAt] unchanged: [active] and all the fields of the
    extension are carried through as they are. *)
Theorem C8_fields_pass_through fuel (subscription : ISubscription Ext) w :
  ∃ r, active r = active subscription ∧ ext r = ext subscription ∧
       setSubscription code config fuel subscription w
       = bind (port (set (storage config) (storageKey config) r))
              (λ _, notify code config fuel (Some r)) w ∧
       ∀ w', final (setSubscription code config fuel subscription w) = Some w' →
             Forall (λ c, c.2 = Some r) (since w w').
Proof.
  exists (toStore (clock w) subscription). split_and!; [done..|].
  intros w'. rewrite setSubscription_eq.
  destruct (set _ _ _ _) as [[e|[]] b].
  - intros [= <-]. rewrite since_same_calls by done. constructor.
  - intros Hf. by apply (notify_frame fuel _ (with_backend b w)).
Qed.

(** Claim C9.  [isActive] returns [false] when the storage holds no
    record under the configured key, and the [active] flag of the
    record when it holds one: [true] exactly when the record has
    [active = true].  A failure of the read is passed on, and no
    observer is called. *)
Theorem C9_isActive w :
  (∀ b, get (storage config) (storageKey config) (backend w) = (inr None, b) →
        isActive config w = Resolved false (with_backend b w)) ∧
  (∀ s b, get (storage config) (storageKey config) (backend w)
          = (inr (Some s), b) →
          isActive config w = Resolved (active s) (with_backend b w)) ∧
  (∀ e b, get (storage config) (storageKey config) (backend w) = (inl e, b) →
          isActive config w = Rejected e (with_backend b w)) ∧
  (∀ w', isActive config w = Resolved true w' ↔
         ∃ s, get (storage config) (storageKey config) (backend w)
              = (inr (Some s), backend w') ∧ active s = true ∧
              w' = with_backend (backend w') w) ∧
  (∀ w', final (isActive config w) = Some w' →
         since w w' = [] ∧ listeners w' = listeners w).
Proof.
  assert (Heq : isActive config w =
            match get (storage config) (storageKey config) (backend w) with
            | (inr (Some s), b) => Resolved (active s) (with_backend b w)
            | (inr None, b) => Resolved false (with_backend b w)
            | (inl e, b) => Rejected e (with_backend b w)
            end).
  { unfold isActive, bind, ret. rewrite getSubscription_eq.
    by destruct (get _ _ _) as [[e|[s|]] b]. }
  rewrite Heq. clear Heq. split_and!.
  - by intros b ->.
  - by intros s b ->.
  - by intros e b ->.
  - intros w'. destruct (get _ _ _) as [[e|[s|]] b]; split.
    + by intros [=].
    + by intros (s & [=] & _).
    + intros [= Ha <-]. exists s. by rewrite Ha.
    + intros (s' & [= <- Hb] & Ha & ->). rewrite Ha. cbn. by rewrite Hb.
    + by intros [=].
    + by intros (s & [=] & _).
  - intros w' Hf.
    assert (∃ b, w' = with_backend b w) as [b ->].
    { destruct (get _ _ _) as [[e|[s|]] b]; simplify_eq/=; by exists b. }
    split; [|done]. by apply since_same_calls.
Qed.

(** Claim C10.  When the change callback throws during a mutation
    whose storage call succeeded, the mutation rejects with the error
    of the callback, the only call made is the one to the change
    callback (no listener is notified), and the backend is as the
    write, or the remove, left it. *)
Theorem C10_onChange_throws f fuel (m : Mutation) w b e w1 :
  onChange config = Some f →
  persist config m w = (inr tt, b) →
  call code f (announced m w) (with_backend b w) = Rejected e w1 →
  mutate code config fuel m w = Rejected e w1 ∧
  since w w1 = [(f, announced m w)] ∧
  backend w1 = b.
Proof.
  intros Hoc Hp Hcall. rewrite mutate_eq, Hp, notify_eq, Hoc. unfold bind.
  rewrite Hcall. split; [done|].
  destruct (call_final f (announced m w) (with_backend b w))
    as (w1' & Hf & Hb & Hc & _).
  rewrite Hcall in Hf. simplify_eq/=. split; [|done].
  by apply since_app.
Qed.

End Pass.

(** * The manager of the test-suite *)

Lemma createMockStorage_reads_back {T Err : Type} :
  reads_back (@createMockStorage T Err).
Proof.
  intros key value b b' [= <-]. cbn. by rewrite lookup_insert_eq.
Qed.

Lemma fresh_ok now : registry_ok (fresh now).
Proof. apply NoDup_nil_2. Qed.

Lemma idle_never_subscribed l : never_subscribed idle l.
Proof. intros f v h. apply not_elem_of_nil. Qed.

Lemma idle_never_unsubscribed l : never_unsubscribed idle l.
Proof. intros f v h. apply not_elem_of_nil. Qed.

Lemma unregistering_never_subscribed l : never_subscribed unregistering l.
Proof.
  intros [|[|f]] v h; cbn; [apply not_elem_of_nil | | apply not_elem_of_nil].
  intros [=]%list_elem_of_singleton.
Qed.

(** A pass need not finish: when every listener registers a new one,
    no amount of fuel is enough. *)
Lemma runaway_never_finishes v fuel :
  ∀ n (w : @World Plan (gmap string TestSubscription)),
    listeners w = Some <$> seq 0 (S n) →
    forEach fuel (λ fn, call runaway fn v) n w = OutOfFuel.
Proof.
  induction fuel as [|fuel IH]; intros n w Hl; [done|].
  rewrite forEach_S.
  assert (Hn : listeners w !! n = Some (Some n)).
  { rewrite Hl, list_lookup_fmap, lookup_seq_lt by lia. done. }
  rewrite Hn. unfold bind, call, runaway. cbn [run].
  apply IH. cbn [subscribe with_listeners with_calls listeners].
  rewrite set_add_absent.
  - rewrite Hl, (seq_S (S n)), fmap_app. done.
  - rewrite Hl. intros (k & [= <-] & Hk%elem_of_seq)%list_elem_of_fmap. lia.
Qed.

Example runaway_pass fuel :
  clearSubscription runaway (testConfig None) fuel
    (subscribe 0 (fresh new_year_2025)) = OutOfFuel.
Proof.
  rewrite clearSubscription_eq. cbn [remove storage testConfig
    createMockStorage]. rewrite notify_eq. cbn [onChange testConfig].
  by apply runaway_never_finishes.
Qed.

(** The scenarios of the test-suite. *)

Example test_auto_fills_updatedAt :
  ∃ w', (setSubscription idle (testConfig None) 1
           (mkSubscription true "" free) (fresh new_year_2025)
         = Resolved tt w') ∧
        getSubscription (testConfig None) w'
        = Resolved (Some (mkSubscription true "2025-01-01T00:00:00.000Z" free))
            w'.
Proof. eexists. split; reflexivity. Qed.

Example test_notifies_with_null_on_clear :
  ∃ w1 w2,
    setSubscription idle (testConfig None) 2 (mkSubscription true "" pro)
      (subscribe 1 (fresh new_year_2025)) = Resolved tt w1 ∧
    clearSubscription idle (testConfig None) 2 w1 = Resolved tt w2 ∧
    times 1 (calls w2) = 2 ∧ last (calls w2) = Some (1, None) ∧
    getSubscription (testConfig None) w2 = Resolved None w2.
Proof. do 2 eexists. split_and!; reflexivity. Qed.

Example test_stops_notifying_after_unsubscribe :
  ∃ w1 w2,
    setSubscription idle (testConfig None) 2 (mkSubscription true "" pro)
      (subscribe 1 (fresh new_year_2025)) = Resolved tt w1 ∧
    setSubscription idle (testConfig None) 2 (mkSubscription false "" free)
      (unsubscribe 1 w1) = Resolved tt w2 ∧
    times 1 (calls w1) = 1 ∧ times 1 (calls w2) = 1.
Proof. do 2 eexists. split_and!; reflexivity. Qed.

(** ** C1 *)

(** Listener 1 registers listener 2 when it is called.  Listener 2 is
    not registered when the pass starts, and is called in that same
    pass all the same. *)
Lemma C1_counterexample :
  ∃ w',
    (setSubscription registering (testConfig None) 3
       (mkSubscription true "" pro) (subscribe 1 (fresh new_year_2025))
     = Resolved tt w') ∧
    (Some 2 ∉ listeners (subscribe 1 (fresh new_year_2025))) ∧
    callees (since (subscribe 1 (fresh new_year_2025)) w') = [1; 2].
Proof.
  eexists. split_and!; [reflexivity | | reflexivity].
  cbn. intros [=]%list_elem_of_singleton.
Qed.

Lemma C1_live_iteration_witness :
  (∃ w', (mutate registering (testConfig None) 3 ClearSubscription
            (subscribe 1 (fresh new_year_2025)) = Resolved tt w') ∧
         Some 2 ∈ listeners w' ∧
         (2, None) ∈ since (subscribe 1 (fresh new_year_2025)) w') ∧
  (∃ w', final (forEach 3 (λ fn, call unregistering fn None) 1
                  (unsubscribe 2 (subscribe 2 (subscribe 1
                     (fresh new_year_2025))))) = Some w' ∧
         never_subscribed unregistering 2 ∧
         (Some 2 ∉ drop 1 (listeners (unsubscribe 2 (subscribe 2 (subscribe 1
                     (fresh new_year_2025)))))) ∧
         2 ∉ callees (since (unsubscribe 2 (subscribe 2 (subscribe 1
                     (fresh new_year_2025)))) w')).
Proof.
  assert (Hin : Some 2 ∈ [Some 1; Some 2]) by (right; left).
  assert (Hout : Some 2 ∉ drop 1 [Some 1; None]).
  { cbn. intros [=]%list_elem_of_singleton. }
  split.
  - eexists. split_and!; [reflexivity | exact Hin |].
    apply (proj1 (C1_live_iteration registering (testConfig None)) 3
             ClearSubscription (subscribe 1 (fresh new_year_2025)));
      [reflexivity | exact Hin].
  - eexists. split_and!;
      [reflexivity | apply unregistering_never_subscribed | exact Hout |].
    apply (proj2 (C1_live_iteration unregistering (testConfig None)) 3 None 1);
      [apply unregistering_never_subscribed | reflexivity | exact Hout].
Defined.

(** ** C2 *)

(** The caller's [updatedAt] is kept as it is: what is stored under
    the key after a successful call is no timestamp. *)
Lemma C2_counterexample :
  ∃ w' r,
    (setSubscription idle (testConfig None) 1
       (mkSubscription true "not-a-date" pro) (fresh new_year_2025)
     = Resolved tt w') ∧
    backend w' !! STORAGE_KEY = Some r ∧
    updatedAt r = "not-a-date" ∧
    isISOString (updatedAt r) = false.
Proof. do 2 eexists. split_and!; reflexivity. Qed.

Lemma C2_updatedAt_after_set_witness :
  ∃ w' r,
    (setSubscription idle (testConfig None) 1
       (mkSubscription true "" pro) (fresh new_year_2025)
     = Resolved tt w') ∧
    time_value (clock (fresh new_year_2025)) ∧
    getSubscription (testConfig None) w' = Resolved (Some r) w' ∧
    updatedAt r ≠ "" ∧ isISOString (updatedAt r) = true.
Proof.
  eexists.
  destruct (C2_updatedAt_after_set idle (testConfig None) 1
              (mkSubscription true "" pro) (fresh new_year_2025) _ eq_refl)
    as (r & _ & Hget & Hne & Hiso & _).
  assert (Ht : time_value (clock (fresh new_year_2025)))
    by (unfold time_value, fresh, new_year_2025; cbn; lia).
  exists r. split_and!; [reflexivity | exact Ht | | exact Hne |].
  - apply Hget, createMockStorage_reads_back.
  - apply Hiso; [reflexivity | exact Ht].
Defined.

(** ** C3 *)

(** The write succeeds and the change callback throws:
    [setSubscription] fails although the storage did not. *)
Lemma C3_counterexample :
  (set (storage (testConfig (Some 0))) STORAGE_KEY
     (toStore new_year_2025 (mkSubscription true "" pro))
     (backend (fresh new_year_2025))).1 = inr tt ∧
  ∃ w', setSubscription throwing (testConfig (Some 0)) 1
          (mkSubscription true "" pro) (fresh new_year_2025)
        = Rejected "boom" w'.
Proof. split; [reflexivity|]. eexists. reflexivity. Qed.

Lemma C3_storage_failures_witness :
  (get (storage (quotaConfig None)) STORAGE_KEY (backend (fresh new_year_2025))
   = (inl "quota", backend (fresh new_year_2025))) ∧
  (∃ w', getSubscription (quotaConfig None) (fresh new_year_2025)
         = Rejected "quota" w') ∧
  (setSubscription idle (quotaConfig (Some 0)) 2
     (mkSubscription true "" pro) (subscribe 1 (fresh new_year_2025))
   = Rejected "quota" (subscribe 1 (fresh new_year_2025))) ∧
  (clearSubscription idle (quotaConfig (Some 0)) 2
     (subscribe 1 (fresh new_year_2025))
   = Rejected "quota" (subscribe 1 (fresh new_year_2025))) ∧
  (∃ w', (setSubscription throwing (testConfig (Some 0)) 2
            (mkSubscription true "" pro) (fresh new_year_2025)
          = Rejected "boom" w') ∧
         ∃ f h, CThrow "boom"
                ∈ throwing f
                    (Some (toStore new_year_2025 (mkSubscription true "" pro)))
                    h).
Proof.
  pose proof (C3_storage_failures idle (quotaConfig None)) as (Hget & _).
  pose proof (C3_storage_failures idle (quotaConfig (Some 0)))
    as (_ & Hfail & _).
  pose proof (C3_storage_failures throwing (testConfig (Some 0)))
    as (_ & _ & Hthrown).
  split_and!.
  - reflexivity.
  - apply Hget. eexists. reflexivity.
  - apply (Hfail 2 (SetSubscription (mkSubscription true "" pro))
             (subscribe 1 (fresh new_year_2025)) "quota" _ eq_refl).
  - apply (Hfail 2 ClearSubscription
             (subscribe 1 (fresh new_year_2025)) "quota" _ eq_refl).
  - eexists. split; [reflexivity|].
    apply (proj2 (Hthrown 2 (SetSubscription (mkSubscription true "" pro))
                    (fresh new_year_2025) _ eq_refl) "boom" _ eq_refl).
Defined.

(** ** C4 *)

Lemma C4_updatedAt_policy_witness :
  reads_back (storage (testConfig None)) ∧
  (∃ w' r,
     (setSubscription idle (testConfig None) 1
        (mkSubscription true "" pro) (fresh new_year_2025)
      = Resolved tt w') ∧
     getSubscription (testConfig None) w' = Resolved (Some r) w' ∧
     updatedAt r = "2025-01-01T00:00:00.000Z") ∧
  (∃ w' r,
     (setSubscription idle (testConfig None) 1
        (mkSubscription true "2024-02-29T12:00:00.000Z" pro)
        (fresh new_year_2025)
      = Resolved tt w') ∧
     getSubscription (testConfig None) w' = Resolved (Some r) w' ∧
     updatedAt r = "2024-02-29T12:00:00.000Z").
Proof.
  split; [apply createMockStorage_reads_back|]. split.
  - eexists.
    destruct (C4_updatedAt_policy idle (testConfig None) 1
                (mkSubscription true "" pro) (fresh new_year_2025) _ eq_refl)
      as (r & _ & Hget & Hempty & _).
    exists r. split_and!; [reflexivity | |].
    + apply Hget, createMockStorage_reads_back.
    + rewrite Hempty; reflexivity.
  - eexists.
    destruct (C4_updatedAt_policy idle (testConfig None) 1
                (mkSubscription true "2024-02-29T12:00:00.000Z" pro)
                (fresh new_year_2025) _ eq_refl)
      as (r & _ & Hget & _ & Hkept).
    exists r. split_and!; [reflexivity | |].
    + apply Hget, createMockStorage_reads_back.
    + rewrite Hkept; [reflexivity | discriminate].
Defined.

(** ** C5 *)

(** Listeners 2 and 1 are registered, in this order; listener 1
    unregisters listener 2 and registers it again.  Listener 2, which
    has been called already, gets a new slot at the end of the list
    and is called a second time in the same pass. *)
Lemma C5_counterexample :
  ∃ w',
    (clearSubscription reregistering (testConfig None) 4
       (subscribe 1 (subscribe 2 (fresh new_year_2025)))
     = Resolved tt w') ∧
    set_values (listeners (subscribe 1 (subscribe 2 (fresh new_year_2025))))
    = [2; 1] ∧
    callees (since (subscribe 1 (subscribe 2 (fresh new_year_2025))) w')
    = [2; 1; 2] ∧
    times 2 (since (subscribe 1 (subscribe 2 (fresh new_year_2025))) w') = 2.
Proof. eexists. split_and!; reflexivity. Qed.

Lemma C5_fan_out_witness :
  ∃ w',
    (mutateAwait idle (testConfig (Some 0)) (unsubscribe 1) 3
       (SetSubscription (mkSubscription true "" pro))
       (subscribe 2 (subscribe 1 (fresh new_year_2025)))
     = Resolved tt w') ∧
    head (since (resumed (testConfig (Some 0)) (unsubscribe 1)
                   (SetSubscription (mkSubscription true "" pro))
                   (subscribe 2 (subscribe 1 (fresh new_year_2025)))) w')
    = Some (0, Some (mkSubscription true "2025-01-01T00:00:00.000Z" pro)) ∧
    times 2 (since (resumed (testConfig (Some 0)) (unsubscribe 1)
                      (SetSubscription (mkSubscription true "" pro))
                      (subscribe 2 (subscribe 1 (fresh new_year_2025)))) w')
    = 1 ∧
    (1 ∉ callees (since (resumed (testConfig (Some 0)) (unsubscribe 1)
                           (SetSubscription (mkSubscription true "" pro))
                           (subscribe 2 (subscribe 1 (fresh new_year_2025)))) w')).
Proof.
  eexists.
  destruct (C5_fan_out idle (testConfig (Some 0)) (unsubscribe 1) 3
              (SetSubscription (mkSubscription true "" pro))
              (subscribe 2 (subscribe 1 (fresh new_year_2025))) _
              (unsubscribe_ok 1 _
                 (subscribe_ok 2 _
                    (subscribe_ok 1 _ (fresh_ok new_year_2025))))
              eq_refl)
    as (_ & _ & (_ & Hoc & Hl) & Hzero).
  destruct (Hoc 0 eq_refl) as [Hhead _].
  split_and!.
  - reflexivity.
  - exact Hhead.
  - apply Hl; [right; left | apply idle_never_unsubscribed | discriminate].
  - apply Hzero;
      [exact (set_delete_gone 1 _) | apply idle_never_subscribed
      | discriminate].
Defined.

(** ** C6 *)



(** ** C7 *)



(** ** C8 *)

Lemma C8_fields_pass_through_witness :
  ∃ w' r,
    (setSubscription idle (testConfig (Some 0)) 2
       (mkSubscription false "" free) (subscribe 1 (fresh new_year_2025))
     = Resolved tt w') ∧
    active r = false ∧ ext r = free ∧
    Forall (λ c, c.2 = Some r)
      (since (subscribe 1 (fresh new_year_2025)) w').
Proof.
  eexists.
  destruct (C8_fields_pass_through idle (testConfig (Some 0)) 2
              (mkSubscription false "" free)
              (subscribe 1 (fresh new_year_2025)))
    as (r & Hactive & Hext & _ & Hall).
  exists r. split_and!; [reflexivity | exact Hactive | exact Hext |].
  apply Hall. reflexivity.
Defined.

(** ** C9 *)

Lemma C9_isActive_witness :
  isActive (testConfig None) (fresh new_year_2025)
  = Resolved false (fresh new_year_2025) ∧
  isActive (testConfig None)
    (stored (mkSubscription true "2025-01-01T00:00:00.000Z" pro) new_year_2025)
  = Resolved true
      (stored (mkSubscription true "2025-01-01T00:00:00.000Z" pro)
         new_year_2025) ∧
  isActive (testConfig None)
    (stored (mkSubscription false "2025-01-01T00:00:00.000Z" free)
       new_year_2025)
  = Resolved false
      (stored (mkSubscription false "2025-01-01T00:00:00.000Z" free)
         new_year_2025) ∧
  isActive (quotaConfig None) (subscribe 1 (fresh new_year_2025))
  = Rejected "quota" (subscribe 1 (fresh new_year_2025)).
Proof.
  split_and!.
  - apply (proj1 (C9_isActive (testConfig None) (fresh new_year_2025)) ∅).
    reflexivity.
  - apply (proj1 (proj2 (C9_isActive (testConfig None)
             (stored (mkSubscription true "2025-01-01T00:00:00.000Z" pro)
                new_year_2025)))
             (mkSubscription true "2025-01-01T00:00:00.000Z" pro)
             {[STORAGE_KEY :=
                 mkSubscription true "2025-01-01T00:00:00.000Z" pro]}).
    reflexivity.
  - apply (proj1 (proj2 (C9_isActive (testConfig None)
             (stored (mkSubscription false "2025-01-01T00:00:00.000Z" free)
                new_year_2025)))
             (mkSubscription false "2025-01-01T00:00:00.000Z" free)
             {[STORAGE_KEY :=
                 mkSubscription false "2025-01-01T00:00:00.000Z" free]}).
    reflexivity.
  - apply (proj1 (proj2 (proj2 (C9_isActive (quotaConfig None)
                                  (subscribe 1 (fresh new_year_2025)))))
             "quota" ∅).
    reflexivity.
Defined.

(** ** C10 *)

Lemma C10_onChange_throws_witness :
  onChange (testConfig (Some 0)) = Some 0 ∧
  ∃ w1,
    (call throwing 0 (Some (toStore new_year_2025 (mkSubscription true "" pro)))
       (with_backend
          {[STORAGE_KEY := toStore new_year_2025 (mkSubscription true "" pro)]}
          (subscribe 1 (fresh new_year_2025)))
     = Rejected "boom" w1) ∧
    (setSubscription throwing (testConfig (Some 0)) 2
       (mkSubscription true "" pro) (subscribe 1 (fresh new_year_2025))
     = Rejected "boom" w1) ∧
    callees (since (subscribe 1 (fresh new_year_2025)) w1) = [0] ∧
    getSubscription (testConfig (Some 0)) w1
    = Resolved (Some (mkSubscription true "2025-01-01T00:00:00.000Z" pro)) w1.
Proof.
  split; [reflexivity|]. eexists.
  destruct (C10_onChange_throws throwing (testConfig (Some 0)) 0 2
              (SetSubscription (mkSubscription true "" pro))
              (subscribe 1 (fresh new_year_2025)) _ "boom" _
              eq_refl eq_refl eq_refl)
    as (Hrej & Hsince & Hb).
  split_and!;
    [reflexivity | exact Hrej | exact (f_equal callees Hsince) | reflexivity].
Defined.

(** * Further properties of the manager *)

Lemma slot_not_ahead f idx (es : SetData) :
  NoDup (set_values es) → es !! idx = Some (Some f) →
  Some f ∉ drop (S idx) es.
Proof.
  intros Hnd Hidx (j & Hj & Hs)%elem_of_drop_slot.
  pose proof (slot_unique f es idx j Hnd Hidx Hs). lia.
Qed.

Lemma drop_set_delete f k (es : SetData) :
  Some f ∉ drop k es → drop k (set_delete f es) = drop k es.
Proof.
  intros Habs. unfold set_delete. rewrite <- fmap_drop.
  by apply (set_delete_absent f (drop k es)).
Qed.

Lemma set_values_cons_Some f (es : SetData) :
  set_values (Some f :: es) = f :: set_values es.
Proof. reflexivity. Qed.

Lemma set_values_cons_None (es : SetData) :
  set_values (None :: es) = set_values es.
Proof. reflexivity. Qed.

Lemma set_delete_length f (es : SetData) :
  length (set_delete f es) = length es.
Proof. unfold set_delete. apply length_fmap. Qed.

Section More.

Context {Ext Err B : Type}.
Variable code : Fn → option (ISubscription Ext) → list (@Call Ext) →
                list (@Cmd Err).
Variable config : ISubscriptionManagerConfig (ISubscription Ext) Err B.

Implicit Types (w : @World Ext B) (v : option (ISubscription Ext)).
Implicit Types (l f g : Fn) (m : @Mutation Ext).

Abbreviation every v := (λ fn, call code fn v).

Lemma call_body f v w :
  call code f v w
  = run (code f v (calls w)) (with_calls (calls w ++ [(f, v)]) w).
Proof. reflexivity. Qed.

(** ** Callbacks that at most unregister themselves *)

Lemma forEach_tame v fuel idx w :
  registry_ok w → tame code (set_values (listeners w)) →
  length (listeners w) - idx < fuel →
  ∃ w', forEach fuel (every v) idx w = Resolved tt w' ∧
        calls w' = calls w ++
                   ((λ f, (f, v)) <$> set_values (drop idx (listeners w))) ∧
        backend w' = backend w ∧ clock w' = clock w ∧
        (∀ l, Some l ∈ listeners w' → Some l ∈ listeners w).
Proof.
  revert idx w. induction fuel as [|fuel IH]; intros idx w Hok Ht Hlen; [lia|].
  rewrite forEach_S. destruct (listeners w !! idx) as [[f|]|] eqn:Hl.
  - apply lookup_lt_Some in Hl as Hlt.
    assert (Hf : f ∈ set_values (listeners w)).
    { apply elem_of_set_values. by eapply list_elem_of_lookup_2. }
    rewrite (drop_S _ _ _ Hl), set_values_cons_Some, fmap_cons.
    unfold bind. rewrite call_body.
    destruct (Ht f Hf v (calls w)) as [-> | ->]; cbn [run].
    + destruct (IH (S idx) (with_calls (calls w ++ [(f, v)]) w))
        as (w' & Hr & Hc & Hb & Hk & Hsub); [done | done | cbn; lia |].
      exists w'. unfold ret. rewrite Hr. split_and!; [done | | done..].
      rewrite Hc. cbn [listeners unsubscribe with_listeners with_calls backend calls clock].
      rewrite <- app_assoc. done.
    + pose proof (slot_not_ahead f idx _ Hok Hl) as Hahead.
      destruct (IH (S idx)
                  (unsubscribe f (with_calls (calls w ++ [(f, v)]) w)))
        as (w' & Hr & Hc & Hb & Hk & Hsub).
      * by apply (unsubscribe_ok f (with_calls (calls w ++ [(f, v)]) w)).
      * intros g Hg. apply Ht. cbn [listeners unsubscribe with_listeners with_calls backend calls clock] in Hg.
        apply elem_of_set_values, elem_of_set_delete in Hg as [_ Hg].
        by apply elem_of_set_values.
      * cbn [listeners unsubscribe with_listeners with_calls backend calls clock].
        rewrite set_delete_length. lia.
      * exists w'. unfold ret. rewrite Hr. split_and!; [done | | done..|].
        -- rewrite Hc. cbn [listeners unsubscribe with_listeners with_calls backend calls clock].
           rewrite drop_set_delete by done.
           rewrite <- app_assoc. done.
        -- intros l Hin. apply Hsub in Hin.
           cbn [listeners unsubscribe with_listeners with_calls backend calls clock] in Hin.
           by apply elem_of_set_delete in Hin as [_ Hin].
  - apply lookup_lt_Some in Hl as Hlt.
    rewrite (drop_S _ _ _ Hl), set_values_cons_None.
    apply IH; [done | done | lia].
  - exists w. rewrite drop_ge by (by apply lookup_ge_None).
    cbn. by rewrite app_nil_r.
Qed.

Lemma notify_tame v fuel w :
  registry_ok w →
  quiet code (option_list (onChange config)) →
  tame code (set_values (listeners w)) →
  length (listeners w) < fuel →
  ∃ w', notify code config fuel v w = Resolved tt w' ∧
        since w w' = (λ f, (f, v)) <$> observers config w ∧
        backend w' = backend w ∧
        (∀ l, Some l ∈ listeners w' → Some l ∈ listeners w).
Proof.
  intros Hok Hq Ht Hlen. rewrite notify_eq.
  unfold observers. destruct (onChange config) as [f|]; cbn [option_list] in *.
  - unfold bind. rewrite call_quiet by (intros h; apply Hq; left).
    destruct (forEach_tame v fuel 0 (with_calls (calls w ++ [(f, v)]) w))
      as (w' & Hr & Hc & Hb & _ & Hsub); [done | done | cbn; lia |].
    exists w'. rewrite Hr. split_and!; [done | | done | done].
    apply since_app. rewrite Hc. cbn. by rewrite drop_0, <- app_assoc.
  - destruct (forEach_tame v fuel 0 w)
      as (w' & Hr & Hc & Hb & _ & Hsub); [done | done | cbn; lia |].
    exists w'. rewrite Hr. split_and!; [done | | done | done].
    apply since_app. rewrite Hc. cbn. by rewrite drop_0.
Qed.

(** X1.  When the change callback leaves the manager alone and every
    listener at most unregisters itself, a mutation whose storage
    call succeeds resolves, within one step per slot, and has called
    the change callback first and then every listener that is
    registered when the pass starts, that is once the awaited storage
    call has settled, each once (the registry holds no listener
    twice), in the order of their registration, all with the
    announced value; no listener has been added during the pass. *)
Theorem callbacks_in_registration_order meanwhile fuel m w b :
  persist config m w = (inr tt, b) →
  registry_ok (resumed config meanwhile m w) →
  quiet code (option_list (onChange config)) →
  tame code (set_values (listeners (resumed config meanwhile m w))) →
  length (listeners (resumed config meanwhile m w)) < fuel →
  ∃ w', mutateAwait code config meanwhile fuel m w = Resolved tt w' ∧
        since (resumed config meanwhile m w) w'
        = (λ f, (f, announced m w))
            <$> observers config (resumed config meanwhile m w) ∧
        backend w' = backend (resumed config meanwhile m w) ∧
        (∀ l, Some l ∈ listeners w' →
              Some l ∈ listeners (resumed config meanwhile m w)).
Proof.
  intros Hp Hok Hq Ht Hlen. rewrite mutateAwait_eq, Hp.
  by apply notify_tame.
Qed.

(** ** A listener that throws *)



(** ** The registry along a session *)

Lemma getSubscription_listeners w w' :
  final (getSubscription config w) = Some w' → listeners w' = listeners w.
Proof.
  rewrite getSubscription_eq.
  destruct (get _ _ _) as [[e|r] b]; by intros [= <-].
Qed.

Lemma isActive_listeners w w' :
  final (isActive config w) = Some w' → listeners w' = listeners w.
Proof.
  unfold isActive, bind, ret. rewrite getSubscription_eq.
  destruct (get _ _ _) as [[e|r] b]; by intros [= <-].
Qed.

Lemma perform_ok op w w' :
  perform code config op w = Some w' → registry_ok w → registry_ok w'.
Proof.
  destruct op as [l|l|fuel m| |]; cbn [perform]; intros Hp Hok.
  - injection Hp as <-. by apply subscribe_ok.
  - injection Hp as <-. by apply unsubscribe_ok.
  - by eapply mutate_ok.
  - unfold registry_ok. by rewrite (getSubscription_listeners _ _ Hp).
  - unfold registry_ok. by rewrite (isActive_listeners _ _ Hp).
Qed.

(** X3.  Whatever a caller does with a new manager, and whatever the
    callbacks do to it meanwhile, the observer set never holds a
    listener twice. *)
Theorem registry_is_a_set ops w w' :
  listeners w = [] →
  session code config ops w = Some w' →
  registry_ok w' ∧
  ∀ l i j, listeners w' !! i = Some (Some l) →
           listeners w' !! j = Some (Some l) → i = j.
Proof.
  intros Hnew Hs.
  assert (Hok : registry_ok w) by (unfold registry_ok; rewrite Hnew; constructor).
  clear Hnew. revert w Hok Hs.
  induction ops as [|op ops IH]; intros w Hok Hs; cbn [session] in Hs.
  - injection Hs as <-. split; [done|].
    intros l i j. by apply slot_unique.
  - destruct (perform code config op w) as [w1|] eqn:Hp; [|done].
    apply (IH w1); [by eapply perform_ok | done].
Qed.

(** ** How long a pass can be *)



(** ** Reading after a mutation *)

(** X5.  Once the remove of a [clearSubscription] has succeeded on a
    storage that forgets what is removed, [getSubscription] returns
    the absent marker and [isActive] returns [false], also when a
    callback made the [clearSubscription] itself reject. *)
Theorem cleared_reads_absent fuel w w' b :
  forgets (storage config) →
  remove (storage config) (storageKey config) (backend w) = (inr tt, b) →
  final (clearSubscription code config fuel w) = Some w' →
  getSubscription config w' = Resolved None w' ∧
  isActive config w' = Resolved false w'.
Proof.
  intros Hforget Hrm Hf.
  assert (Hb : backend w' = b).
  { rewrite clearSubscription_eq, Hrm in Hf.
    by apply (notify_frame code config fuel None (with_backend b w) w'). }
  assert (Hget : get (storage config) (storageKey config) (backend w')
                 = (inr None, backend w')).
  { rewrite Hb. by eapply Hforget. }
  split.
  - by rewrite getSubscription_eq, Hget, with_backend_id.
  - unfold isActive, bind, ret.
    by rewrite getSubscription_eq, Hget, with_backend_id.
Qed.

(** X6.  A record that went through [setSubscription] once is not
    stamped again: passed to [setSubscription] at any later time, it
    is written and announced exactly as it is. *)
Theorem stored_record_is_not_restamped now (subscription : ISubscription Ext) w :
  toStore (clock w) (toStore now subscription) = toStore now subscription ∧
  persist config (SetSubscription (toStore now subscription)) w
  = set (storage config) (storageKey config) (toStore now subscription)
      (backend w) ∧
  announced (SetSubscription (toStore now subscription)) w
  = Some (toStore now subscription).
Proof.
  assert (H : toStore (clock w) (toStore now subscription)
              = toStore now subscription).
  { unfold toStore. cbn [active updatedAt ext]. f_equal.
    pose proof (toISOString_nonempty now).
    destruct (updatedAt subscription); cbn [or_else]; [|done].
    by destruct (toISOString now). }
  split_and!; [done | |]; cbn [persist announced]; by rewrite H.
Qed.

End More.

(** ** The order of the registry *)

(** X7.  [subscribe] never reorders the registry: a listener that is
    registered keeps its place, a new one goes last; and a listener
    that unsubscribes and subscribes again has lost its place and is
    now last. *)
Theorem subscribe_order {Ext B : Type} (l : Fn) (w : @World Ext B) :
  (Some l ∈ listeners w →
   set_values (listeners (subscribe l w)) = set_values (listeners w)) ∧
  (Some l ∉ listeners w →
   set_values (listeners (subscribe l w)) = set_values (listeners w) ++ [l]) ∧
  set_values (listeners (subscribe l (unsubscribe l w)))
  = filter (λ x, x ≠ l) (set_values (listeners w)) ++ [l].
Proof.
  split_and!.
  - intros Hin. cbn [subscribe with_listeners listeners].
    by rewrite set_add_present.
  - intros Hout. cbn [subscribe with_listeners listeners].
    by rewrite set_add_absent, set_values_app.
  - cbn [subscribe unsubscribe with_listeners listeners].
    rewrite set_add_absent by apply set_delete_gone.
    by rewrite set_values_app, set_values_delete.
Qed.

(** ** The storage of the test-suite *)

(** X8.  The Map-backed storage of the test-suite never fails; it
    returns what was last written under a key, the absent marker for
    a key that was never written or was removed, and a write or a
    remove under one key changes nothing under another. *)
Theorem createMockStorage_laws {T Err : Type}
    (store : gmap string T) (key other : string) (value : T) :
  let st := @createMockStorage T Err in
  (∃ store', set st key value store = (inr tt, store') ∧
             get st key store' = (inr (Some value), store') ∧
             (other ≠ key →
              (get st other store').1 = (get st other store).1)) ∧
  (∃ store', remove st key store = (inr tt, store') ∧
             get st key store' = (inr None, store') ∧
             (other ≠ key →
              (get st other store').1 = (get st other store).1)) ∧
  (∃ r, get st key store = (inr r, store)) ∧
  get st key ∅ = (inr None, ∅).
Proof.
  cbn. split_and!.
  - eexists. split_and!; [done | by rewrite lookup_insert_eq |].
    intros Hne. by rewrite lookup_insert_ne.
  - eexists. split_and!; [done | by rewrite lookup_delete_eq |].
    intros Hne. by rewrite lookup_delete_ne.
  - by eexists.
  - done.
Qed.

Lemma createMockStorage_forgets {T Err : Type} :
  forgets (@createMockStorage T Err).
Proof. intros key b b' [= <-]. cbn. by rewrite lookup_delete_eq. Qed.

(** X9.  Two managers on the same Map-backed store do not disturb
    each other when their storage keys differ: whatever one of them
    writes or removes, and however its mutation ends, the other
    reads the record it read before. *)
Theorem storageKey_isolation {Ext Err : Type}
    (code : Fn → option (ISubscription Ext) → list (@Call Ext) →
            list (@Cmd Err))
    (mine theirs : ISubscriptionManagerConfig (ISubscription Ext) Err
                     (gmap string (ISubscription Ext)))
    fuel (m : @Mutation Ext) w w' :
  storage mine = createMockStorage →
  storage theirs = createMockStorage →
  storageKey mine ≠ storageKey theirs →
  final (mutate code mine fuel m w) = Some w' →
  ∃ r, getSubscription theirs w = Resolved r w ∧
       getSubscription theirs w' = Resolved r w'.
Proof.
  intros Hmine Htheirs Hne Hf.
  exists (backend w !! storageKey theirs).
  rewrite !getSubscription_eq, Htheirs. cbn [get createMockStorage].
  rewrite !with_backend_id. split; [done|].
  assert (Hb : backend w' !! storageKey theirs
               = backend w !! storageKey theirs); [|by rewrite Hb].
  apply mutate_final in Hf as [(e & b & Hp & ->)|(b & Hp & Hn)].
  - destruct m; cbn [persist] in Hp; rewrite Hmine in Hp; by cbn in Hp.
  - apply notify_frame in Hn as (-> & _). cbn [backend with_backend].
    destruct m; cbn [persist] in Hp; rewrite Hmine in Hp; cbn in Hp;
      injection Hp as <-.
    + by rewrite lookup_insert_ne.
    + by rewrite lookup_delete_ne.
Qed.

(** * The React binding *)

Section ProviderFacts.

Context {Ext Err B Error : Type}.
Variable instanceofError : Err → option Error.
Variable toString : Err → string.
Variable newError : string → Error.
Variable code : Fn → option (ISubscription Ext) → list (@Call Ext) →
                list (@Cmd Err).
Variable config : ISubscriptionManagerConfig (ISubscription Ext) Err B.

Implicit Types (w : @World Ext B) (s : @React.State Ext Error).
Implicit Types (cs : list (@Call Ext)) (m : @Mutation Ext).

Abbreviation hydrate := (React.hydrate instanceofError toString newError).
Abbreviation handle := (React.handle instanceofError toString newError).

Lemma deliver_cons c fn call cs s :
  React.deliver c fn (call :: cs) s
  = React.deliver c fn cs
      (if decide (call.1 = fn) then React.listener c call.2 s else s).
Proof. reflexivity. Qed.

(** The listener touches the subscription cell only. *)
Lemma deliver_frame c fn cs s :
  React.loading (React.deliver c fn cs s) = React.loading s ∧
  React.error (React.deliver c fn cs s) = React.error s.
Proof.
  revert s. induction cs as [|call cs IH]; intros s; [done|].
  rewrite deliver_cons. destruct (IH
    (if decide (call.1 = fn) then React.listener c call.2 s else s))
    as [-> ->].
  case_decide; [|done]. unfold React.listener. by destruct c.
Qed.

Lemma deliver_not_called c fn cs s :
  fn ∉ callees cs → React.deliver c fn cs s = s.
Proof.
  revert s. induction cs as [|call cs IH]; intros s Hn; [done|].
  unfold callees in Hn. rewrite fmap_cons in Hn.
  apply not_elem_of_cons in Hn as [Hne Hn].
  rewrite deliver_cons, decide_False by done. by apply IH.
Qed.

Lemma deliver_cancelled fn cs s : React.deliver true fn cs s = s.
Proof.
  revert s. induction cs as [|call cs IH]; intros s; [done|].
  rewrite deliver_cons. rewrite IH. by case_decide.
Qed.

Lemma deliver_same_value fn v cs s :
  Forall (λ c, c.2 = v) cs →
  React.subscription s = v ∨ fn ∈ callees cs →
  React.subscription (React.deliver false fn cs s) = v.
Proof.
  revert s. induction cs as [|call cs IH]; intros s Hall Hor.
  - destruct Hor as [?|Hin]; [done|]. by apply elem_of_nil in Hin.
  - apply Forall_cons in Hall as [Hv Hall]. rewrite deliver_cons.
    apply IH; [done|]. case_decide as Hc.
    + left. done.
    + destruct Hor as [?|Hin]; [by left|]. right.
      unfold callees in Hin. rewrite fmap_cons in Hin.
      apply elem_of_cons in Hin as [Heq|Hin]; [by symmetry in Heq|done].
Qed.

Lemma mutate_zero fuel m w w' l :
  never_subscribed code l → onChange config ≠ Some l →
  Some l ∉ listeners w →
  final (mutate code config fuel m w) = Some w' →
  l ∉ callees (since w w').
Proof.
  intros Hn Hoc Habs [(e & b & _ & ->)|(b & _ & Hf)]%mutate_final.
  - rewrite since_same_calls by done. apply not_elem_of_nil.
  - rewrite <- (since_with_backend b). by eapply notify_zero.
Qed.

Lemma deliver_announced fuel m w w' fn s :
  mutate code config fuel m w = Resolved tt w' →
  Some fn ∈ listeners w' →
  React.subscription (React.deliver false fn (since w w') s)
  = announced m w.
Proof.
  intros [_ Hn]%mutate_resolved Hin.
  rewrite <- (since_with_backend (backend w')).
  apply deliver_same_value.
  - eapply notify_frame. by rewrite Hn.
  - right. unfold callees. apply list_elem_of_fmap.
    exists (fn, announced m w). split; [done|].
    by eapply notify_invoked.
Qed.

(** X10.  Live updates.  After a successful mutation a provider whose
    listener is registered, and whose effect has not been cleaned up,
    shows the value the mutation announced (the record as stored, or
    nothing after a clear), and its [isActive] is the [active] flag
    of the caller's record, or [false] after a clear; the listener
    changes neither [loading] nor [error]. *)
Theorem provider_shows_announced fuel m w w' fn s :
  mutate code config fuel m w = Resolved tt w' →
  Some fn ∈ listeners w' →
  let s' := React.deliver false fn (since w w') s in
  React.subscription s' = announced m w ∧
  React.isActive s' = match m with
                      | SetSubscription r => active r
                      | ClearSubscription => false
                      end ∧
  React.loading s' = React.loading s ∧
  React.error s' = React.error s.
Proof.
  intros Hr Hin s'.
  assert (Hsub : React.subscription s' = announced m w)
    by by eapply deliver_announced.
  split_and!; [done | | apply deliver_frame..].
  unfold React.isActive. rewrite Hsub. by destruct m.
Qed.

(** X11.  Hydration.  A provider mounted after a successful
    [setSubscription] on a storage that gives back what was written
    leaves the loading state with the stored record and no error;
    when the read fails it leaves the loading state with the error
    that was thrown, wrapped in an [Error] if it is not one, and no
    record. *)
Theorem provider_hydrates :
  (∀ fuel (r : ISubscription Ext) w w',
     reads_back (storage config) →
     setSubscription code config fuel r w = Resolved tt w' →
     hydrate false (getSubscription config w') React.initial
     = React.mkState (Some (toStore (clock w) r)) false None) ∧
  (∀ w e b,
     get (storage config) (storageKey config) (backend w) = (inl e, b) →
     hydrate false (getSubscription config w) React.initial
     = React.mkState None false
         (Some (match instanceofError e with
                | Some err => err
                | None => newError (toString e)
                end))).
Proof.
  split.
  - intros fuel r w w' Hrb (b & Hset & _ & <-)%setSubscription_resolved.
    rewrite getSubscription_eq, (Hrb _ _ _ _ Hset). done.
  - intros w e b Hget. rewrite getSubscription_eq, Hget. done.
Qed.

(** X12.  Teardown.  Once the cleanup of the effect has run, none of
    its callbacks changes the state, whenever they are called (a
    hydration that settles late, a notification on its way); and
    since the cleanup unsubscribes the listener, no later mutation
    calls it (as long as nobody registers it again). *)
Theorem provider_teardown fn :
  (∀ cs s, React.deliver true fn cs s = s) ∧
  (∀ (o : @Outcome Ext Err B (option (ISubscription Ext))) s,
     hydrate true o s = s) ∧
  (∀ fuel m w w',
     never_subscribed code fn → onChange config ≠ Some fn →
     final (mutate code config fuel m (unsubscribe fn w)) = Some w' →
     (fn ∉ callees (since (unsubscribe fn w) w')) ∧
     ∀ c s, React.deliver c fn (since (unsubscribe fn w) w') s = s).
Proof.
  split_and!.
  - apply deliver_cancelled.
  - by intros [sub w|e w|] s.
  - intros fuel m w w' Hn Hoc Hf.
    assert (Hz : fn ∉ callees (since (unsubscribe fn w) w')).
    { eapply mutate_zero; [done | done | apply set_delete_gone | done]. }
    split; [done|]. intros c s. by apply deliver_not_called.
Qed.

(** X13.  Whatever callbacks of whatever runs of the effect are
    invoked, in whatever order: [loading] never goes back to [true],
    and an error, once set, is never cleared, not even by a later
    hydration that succeeds or by a notification. *)
Theorem provider_loading_and_error_are_sticky evs s :
  let s' := foldl handle s evs in
  (React.loading s' = true → React.loading s = true) ∧
  (is_Some (React.error s) → is_Some (React.error s')).
Proof.
  revert s. induction evs as [|ev evs IH]; intros s; [done|].
  cbn [foldl]. destruct (IH (handle s ev)) as [Hl He]. cbv zeta. split.
  - intros H. specialize (Hl H).
    destruct ev as [[] sub|[] e|[] sub]; cbn in Hl; done.
  - intros H. apply He.
    destruct ev as [[] sub|[] e|[] sub]; cbn; done.
Qed.

(** X14.  The hydration overrides a notification that arrived before
    it.  When a mutation resolves, and notifies the provider, between
    the moment the effect started the read and the moment the read
    settles, the provider ends up showing what the read returned, not
    what the mutation announced. *)
Theorem hydration_overrides_earlier_notification fuel m w w1 w2 fn r :
  getSubscription config w = Resolved r w1 →
  mutate code config fuel m (subscribe fn w1) = Resolved tt w2 →
  let notified :=
    React.deliver false fn (since (subscribe fn w1) w2) React.initial in
  let settled := hydrate false (getSubscription config w) notified in
  (Some fn ∈ listeners w2 →
   React.subscription notified = announced m (subscribe fn w1)) ∧
  settled = React.mkState r false None.
Proof.
  intros Hget Hm notified settled. split.
  - intros Hin.
    by eapply deliver_announced.
  - unfold settled. rewrite Hget. cbn [React.hydrate React.onHydrated].
    f_equal. by destruct (deliver_frame false fn
                            (since (subscribe fn w1) w2) React.initial).
Qed.

(** X15.  The provider and the store agree.  On a storage that gives
    back what was written and forgets what was removed, after a
    successful mutation the record shown by a provider whose listener
    is registered is the record a read of the manager returns, and the
    [isActive] of the context is the [isActive()] of the manager. *)
Theorem provider_agrees_with_manager fuel m w w' fn s :
  reads_back (storage config) → forgets (storage config) →
  mutate code config fuel m w = Resolved tt w' →
  Some fn ∈ listeners w' →
  let s' := React.deliver false fn (since w w') s in
  getSubscription config w' = Resolved (React.subscription s') w' ∧
  isActive config w' = Resolved (React.isActive s') w'.
Proof.
  intros Hrb Hfg Hm Hin s'.
  assert (Hsub : React.subscription s' = announced m w)
    by by eapply deliver_announced.
  apply mutate_resolved in Hm as [Hp _].
  assert (Hget : get (storage config) (storageKey config) (backend w')
                 = (inr (announced m w), backend w')).
  { destruct m as [r|]; cbn in Hp |- *; [by eapply Hrb | by eapply Hfg]. }
  split.
  - by rewrite getSubscription_eq, Hget, with_backend_id, Hsub.
  - unfold isActive, bind, ret, React.isActive.
    by rewrite getSubscription_eq, Hget, with_backend_id, Hsub.
Qed.

End ProviderFacts.

(** * Examples for the further facts *)

Lemma once_tame : tame once [1; 2; 3].
Proof.
  intros f Hf v h. destruct f as [|[|f]]; cbn; [by left | by right | by left].
Qed.

Lemma callbacks_in_registration_order_witness :
  tame once [1; 2; 3] ∧
  ∃ w',
    (mutateAwait once (testConfig (Some 0)) (subscribe 3) 4
       (SetSubscription (mkSubscription true "" pro))
       (subscribe 2 (subscribe 1 (fresh new_year_2025)))
     = Resolved tt w') ∧
    since
      (resumed (testConfig (Some 0)) (subscribe 3)
               (SetSubscription (mkSubscription true "" pro))
               (subscribe 2 (subscribe 1 (fresh new_year_2025))))
      w'
    = [(0, Some (mkSubscription true "2025-01-01T00:00:00.000Z" pro));
       (1, Some (mkSubscription true "2025-01-01T00:00:00.000Z" pro));
       (2, Some (mkSubscription true "2025-01-01T00:00:00.000Z" pro));
       (3, Some (mkSubscription true "2025-01-01T00:00:00.000Z" pro))].
Proof.
  split; [exact once_tame|].
  destruct (callbacks_in_registration_order once (testConfig (Some 0))
              (subscribe 3) 4
              (SetSubscription (mkSubscription true "" pro))
              (subscribe 2 (subscribe 1 (fresh new_year_2025)))
              (<[STORAGE_KEY :=
                   mkSubscription true "2025-01-01T00:00:00.000Z" pro]> ∅)
              eq_refl)
    as (w' & Hm & Hs & _).
  - exact (subscribe_ok 3 _
             (subscribe_ok 2 _
                (subscribe_ok 1 _ (fresh_ok new_year_2025)))).
  - intros f [->|[]%elem_of_nil]%elem_of_cons v h. reflexivity.
  - exact once_tame.
  - vm_compute. lia.
  - exists w'. split; [exact Hm | exact Hs].
Defined.


Lemma registry_is_a_set_witness :
  ∃ w',
    (session idle (testConfig None)
       [DoSubscribe 1; DoSubscribe 2; DoSubscribe 1; DoUnsubscribe 1;
        DoSubscribe 1; DoMutate 4 ClearSubscription; DoIsActive]
       (fresh new_year_2025)
     = Some w') ∧
    registry_ok w' ∧
    set_values (listeners w') = [2; 1].
Proof.
  eexists. split; [reflexivity|]. split; [|reflexivity].
  apply (registry_is_a_set idle (testConfig None)
           [DoSubscribe 1; DoSubscribe 2; DoSubscribe 1; DoUnsubscribe 1;
            DoSubscribe 1; DoMutate 4 ClearSubscription; DoIsActive]
           (fresh new_year_2025)); reflexivity.
Defined.


Lemma cleared_reads_absent_witness :
  ∃ w',
    (final (clearSubscription idle (testConfig None) 2
              (subscribe 1
                 (stored (mkSubscription true "2025-01-01T00:00:00.000Z" pro)
                    new_year_2025)))
     = Some w') ∧
    getSubscription (testConfig None) w' = Resolved None w' ∧
    isActive (testConfig None) w' = Resolved false w'.
Proof.
  eexists. split; [reflexivity|].
  apply (cleared_reads_absent idle (testConfig None) 2
           (subscribe 1
              (stored (mkSubscription true "2025-01-01T00:00:00.000Z" pro)
                 new_year_2025)) _
           (delete STORAGE_KEY
              {[STORAGE_KEY :=
                  mkSubscription true "2025-01-01T00:00:00.000Z" pro]})).
  - apply createMockStorage_forgets.
  - reflexivity.
  - reflexivity.
Defined.

Lemma storageKey_isolation_witness :
  ∃ w',
    (final (mutate idle (testConfig None) 1
              (SetSubscription (mkSubscription true "" pro))
              (fresh new_year_2025))
     = Some w') ∧
    ∃ r,
      getSubscription (otherConfig None) (fresh new_year_2025)
      = Resolved r (fresh new_year_2025) ∧
      getSubscription (otherConfig None) w' = Resolved r w'.
Proof.
  eexists. split; [reflexivity|].
  apply (storageKey_isolation idle (testConfig None) (otherConfig None) 1
           (SetSubscription (mkSubscription true "" pro))
           (fresh new_year_2025)).
  - reflexivity.
  - reflexivity.
  - discriminate.
  - reflexivity.
Defined.

Lemma provider_shows_announced_witness :
  ∃ w',
    (mutate idle (testConfig None) 2
       (SetSubscription (mkSubscription true "" pro))
       (subscribe 1 (fresh new_year_2025))
     = Resolved tt w') ∧
    React.subscription
      (React.deliver false 1 (since (subscribe 1 (fresh new_year_2025)) w')
         (@React.initial Plan string))
    = Some (mkSubscription true "2025-01-01T00:00:00.000Z" pro) ∧
    React.isActive
      (React.deliver false 1 (since (subscribe 1 (fresh new_year_2025)) w')
         (@React.initial Plan string))
    = true.
Proof.
  eexists. split; [reflexivity|].
  pose proof (provider_shows_announced idle (testConfig None) 2
                (SetSubscription (mkSubscription true "" pro))
                (subscribe 1 (fresh new_year_2025)) _ 1
                (@React.initial Plan string) eq_refl) as H.
  destruct H as (Hsub & Hact & _).
  - left.
  - split; [exact Hsub | exact Hact].
Defined.

Lemma hydration_overrides_earlier_notification_witness :
  ∃ w2,
    (mutate idle (testConfig None) 2
       (SetSubscription (mkSubscription true "" pro))
       (subscribe 1
          (stored (mkSubscription false "2024-06-01T00:00:00.000Z" free)
             new_year_2025))
     = Resolved tt w2) ∧
    React.hydrate (λ e : string, Some e) id id false
      (getSubscription (testConfig None)
         (stored (mkSubscription false "2024-06-01T00:00:00.000Z" free)
            new_year_2025))
      (React.deliver false 1
         (since
            (subscribe 1
               (stored (mkSubscription false "2024-06-01T00:00:00.000Z" free)
                  new_year_2025)) w2)
         React.initial)
    = React.mkState
        (Some (mkSubscription false "2024-06-01T00:00:00.000Z" free))
        false None.
Proof.
  eexists. split; [reflexivity|].
  apply (hydration_overrides_earlier_notification
           (λ e : string, Some e) id id idle (testConfig None) 2
           (SetSubscription (mkSubscription true "" pro))
           (stored (mkSubscription false "2024-06-01T00:00:00.000Z" free)
              new_year_2025)
           (stored (mkSubscription false "2024-06-01T00:00:00.000Z" free)
              new_year_2025)
           _ 1
           (Some (mkSubscription false "2024-06-01T00:00:00.000Z" free))
           eq_refl eq_refl).
Defined.

Lemma provider_agrees_with_manager_witness :
  ∃ w',
    (mutate idle (testConfig None) 2
       (SetSubscription (mkSubscription true "" pro))
       (subscribe 1 (fresh new_year_2025))
     = Resolved tt w') ∧
    getSubscription (testConfig None) w'
    = Resolved (Some (mkSubscription true "2025-01-01T00:00:00.000Z" pro)) w' ∧
    isActive (testConfig None) w' = Resolved true w'.
Proof.
  eexists. split; [reflexivity|].
  pose proof (provider_agrees_with_manager idle (testConfig None) 2
                (SetSubscription (mkSubscription true "" pro))
                (subscribe 1 (fresh new_year_2025)) _ 1
                (@React.initial Plan string)
                createMockStorage_reads_back createMockStorage_forgets
                eq_refl) as H.
  destruct H as (Hget & Hact).
  - left.
  - split; [exact Hget | exact Hact].
Defined.
